(** * tap_s3_csv.sync: the per-table sync engine

    A shallow embedding of [src/tap_s3_csv/sync.py] ([sync_stream],
    [sync_table_file], [RecordMessageWithSequence]) and the properties
    of its ordering, checkpointing, provenance stamping and sequencing.

    Effects are modelled with a writer-and-error monad: every call that
    leaves the process (logging, storage access, module import,
    message and state output) appends one [event] to a trace, and a
    Python exception is the [Raise] result, which stops the
    computation and keeps the trace produced so far.  The [state]
    dictionary, which the caller shares with [sync_stream] and which
    [singer.write_bookmark] updates in place, is threaded explicitly
    through the file loop and returned next to the trace. *)

From Stdlib Require Import ZArith String Ascii List Sorted Permutation Lia.
From stdpp Require Import gmap strings list fin_maps sorting.

(** ** Python values *)

(** Scalar values found in CSV rows, after and before coercion. *)
Inductive pyval :=
| PNone
| PStr (s : string)
| PInt (z : Z)
| PBool (b : bool).

#[global] Instance pyval_eq_dec : EqDecision pyval.
Proof. solve_decision. Defined.

(** A decoded row and a record are Python dicts from field name to value. *)
Abbreviation row := (gmap string pyval).

(** Exceptions.  [KeyError] comes from [config[...]], and
    [ModuleNotFoundError] from [importlib.import_module]; every other
    fault of a collaborator (storage, decoder, transformer, date parser)
    is a [Fault] with its class name and message. *)
Inductive exn :=
| KeyError (k : string)
| ModuleNotFoundError (name : string)
| Fault (cls msg : string).

Inductive result (A : Type) :=
| OK (a : A)
| Raise (e : exn).
Arguments OK {A} a.
Arguments Raise {A} e.

(** ** Aware datetimes

    [last_modified] is a timezone-aware [datetime].  It is represented by
    the instant it denotes, in microseconds since the Unix epoch (the
    resolution of Python's datetime), its UTC offset in minutes, and the
    identity of its [tzinfo] object.  The wall-clock fields Python stores
    (year to microsecond) are the instant shifted by the offset. *)
Record datetime := {
  epoch_us : Z;
  utcoffset : Z;
  tzinfo : nat
}.

(** The wall-clock fields as one number: microseconds of local time. *)
Definition wall_us (d : datetime) : Z := (epoch_us d + utcoffset d * 60000000)%Z.

(** [a < b] on aware datetimes ([datetime._cmp]).  When both carry the
    same [tzinfo] object, or the same UTC offset, the wall-clock fields
    are compared and the offsets ignored; otherwise the instants are
    compared.  With one [tzinfo] of varying offset (daylight saving) the
    wall-clock order can differ from the order of the instants. *)
Definition dt_lt (a b : datetime) : bool :=
  if (tzinfo a =? tzinfo b)%nat then (wall_us a <? wall_us b)%Z
  else if (utcoffset a =? utcoffset b)%Z then (wall_us a <? wall_us b)%Z
  else (epoch_us a <? epoch_us b)%Z.

(** [int(d.timestamp())]: the seconds since the epoch, truncated toward
    zero by [int]. *)
Definition int_timestamp (d : datetime) : Z := Z.quot (epoch_us d) 1000000.

(** Days since 1970-01-01 to the proleptic Gregorian (year, month, day). *)
Definition civil_from_days (days : Z) : Z * Z * Z :=
  let z := (days + 719468)%Z in
  let era := (z / 146097)%Z in
  let doe := (z - era * 146097)%Z in
  let yoe := ((doe - doe / 1460 + doe / 36524 - doe / 146096) / 365)%Z in
  let doy := (doe - (365 * yoe + yoe / 4 - yoe / 100))%Z in
  let mp := ((5 * doy + 2) / 153)%Z in
  let d := (doy - (153 * mp + 2) / 5 + 1)%Z in
  let m := (if (mp <? 10)%Z then mp + 3 else mp - 9)%Z in
  let y := (yoe + era * 400 + (if (m <=? 2)%Z then 1 else 0))%Z in
  (y, m, d).

Definition digit (d : Z) : ascii := ascii_of_nat (48 + Z.to_nat d).

(** The last [width] decimal digits of [n], zero padded. *)
Fixpoint zero_padded (width : nat) (n : Z) : string :=
  match width with
  | O => EmptyString
  | S w => zero_padded w (n / 10) +:+ String (digit (n mod 10)) EmptyString
  end.

(** [d.isoformat()] of an aware datetime:
    [YYYY-MM-DDTHH:MM:SS[.ffffff]+HH:MM]. *)
Definition isoformat (d : datetime) : string :=
  let local := (epoch_us d + utcoffset d * 60000000)%Z in
  let days := (local / 86400000000)%Z in
  let tod := (local mod 86400000000)%Z in
  let '(y, m, dd) := civil_from_days days in
  let us := (tod mod 1000000)%Z in
  let off := Z.abs (utcoffset d) in
  zero_padded 4 y +:+ "-" +:+ zero_padded 2 m +:+ "-" +:+ zero_padded 2 dd
  +:+ "T" +:+ zero_padded 2 (tod / 3600000000)
  +:+ ":" +:+ zero_padded 2 ((tod / 60000000) mod 60)
  +:+ ":" +:+ zero_padded 2 ((tod / 1000000) mod 60)
  +:+ (if (us =? 0)%Z then EmptyString else "." +:+ zero_padded 6 us)
  +:+ (if (utcoffset d <? 0)%Z then "-" else "+")
  +:+ zero_padded 2 (off / 60) +:+ ":" +:+ zero_padded 2 (off mod 60).

(** ** Inputs of the sync *)

(** [table_spec]: a table's configuration; the sync reads [table_name]. *)
Record table_spec := {
  table_name : string;
  table_options : gmap string pyval
}.

(** One descriptor yielded by the file selector. *)
Record s3_file := {
  key : string;
  last_modified : datetime
}.

(** The catalog entry of the table: [stream["schema"]] and
    [stream["metadata"]], opaque to the sync. *)
Record catalog_entry (Schema Metadata : Type) := {
  schema : Schema;
  metadata : Metadata
}.
Arguments schema {Schema Metadata} c.
Arguments metadata {Schema Metadata} c.

(** The handle of an opened object; the decoder reads [_raw_stream]. *)
Record file_handle := {
  _raw_stream : list Byte.byte
}.

(** What iterating a decoder's row iterator does: it yields [rows] in
    order and then either ends or raises [iter_fault] (a decode error or
    a storage read error met while pulling the next row). *)
Record row_iterator := {
  rows : list row;
  iter_fault : option exn
}.

(** A decoding module: anything with [get_row_iterator]. *)
Record encoding_module := {
  get_row_iterator : list Byte.byte → table_spec → result row_iterator
}.

(** The outcome of [importlib.import_module(name)]. *)
Inductive import_result :=
| Imported (m : encoding_module)
| NotFound
| ImportFails (e : exn).

(** ** The singer library: bookmarks and messages *)

Module singer.

(** Modelled from the spec: the state channel is "bookmark storage keyed
    by table name, field modified_since (ISO-8601 string)".  The state
    object is a dict whose ["bookmarks"] entry maps a stream id to its
    bookmark dict; [other_keys] are its remaining top-level entries. *)
Record State := {
  bookmarks : option (gmap string (gmap string string));
  other_keys : gmap string pyval
}.

(** [state.get('bookmarks', {}).get(tap_stream_id, {}).get(key)] *)
Definition get_bookmark (state : State) (tap_stream_id key : string)
  : option string :=
  (default ∅ (bookmarks state) !! tap_stream_id) ≫= (λ b, b !! key).

(** [state['bookmarks'][tap_stream_id][key] = val], creating the two
    enclosing dicts when they are absent. *)
Definition write_bookmark (state : State) (tap_stream_id key val : string)
  : State :=
  let bm := default ∅ (bookmarks state) in
  {| bookmarks :=
       Some (<[tap_stream_id := <[key := val]> (default ∅ (bm !! tap_stream_id))]> bm);
     other_keys := other_keys state |}.

(** Modelled from the spec: one output message per record, with the
    fields [stream] and [record]. *)
Record RecordMessage := {
  stream : string;
  record : row
}.

(** A value of a serialized message. *)
Inductive msgval :=
| MStr (s : string)
| MInt (z : Z)
| MRecord (r : row).

(** Modelled from the spec: a record message serializes to
    [{type: "RECORD", stream: table_name, record: {...}}]. *)
Definition asdict (m : RecordMessage) : gmap string msgval :=
  <["record" := MRecord (record m)]>
    (<["stream" := MStr (stream m)]>
       (<["type" := MStr "RECORD"]> ∅)).

End singer.

(** ** RecordMessageWithSequence (sync.py, lines 105-122) *)

Module RecordMessageWithSequence.

Record t := {
  message : singer.RecordMessage;
  last_modified : Z
}.

Definition __init__ (message : singer.RecordMessage) (last_modified : datetime) : t :=
  {| message := message; last_modified := int_timestamp last_modified |}.

Definition asdict (self : t) : gmap string singer.msgval :=
  let result := singer.asdict (message self) in
  <["sequence" := singer.MInt (last_modified self)]> result.

End RecordMessageWithSequence.

(** ** Effects *)

Inductive level := INFO | WARNING.

Inductive logarg :=
| LStr (s : string)
| LInt (z : Z)
| LTime (d : datetime).

Inductive event :=
| Log (lvl : level) (msg : string) (args : list logarg)
| GetInputFiles (modified_since : datetime)
| GetFileHandle (s3_path : string)
| FieldSizeLimit
| ImportModule (name : string)
| Transform (rec : row)
| WriteMessage (m : RecordMessageWithSequence.t)
| WriteState (state : singer.State).

Definition M (A : Type) : Type := list event * result A.

Definition ret {A} (a : A) : M A := ([], OK a).
Definition raise {A} (e : exn) : M A := ([], Raise e).
Definition emit (ev : event) : M unit := ([ev], OK tt).
Definition lift {A} (r : result A) : M A := ([], r).

Definition bind {A B} (m : M A) (f : A → M B) : M B :=
  match m with
  | (tr, OK a) => let '(tr', r) := f a in (tr ++ tr', r)
  | (tr, Raise e) => (tr, Raise e)
  end.

Notation "x <- m ;; k" := (bind m (λ x, k))
  (at level 100, m at next level, right associativity).
Notation "m ;;; k" := (bind m (λ _, k))
  (at level 100, right associativity).

(** [d[k]] on the configuration dict. *)
Definition getitem (d : gmap string string) (k : string) : M string :=
  match d !! k with
  | Some v => ret v
  | None => raise (KeyError k)
  end.

Definition dquote : string := String (ascii_of_nat 34) EmptyString.

(** ** [sorted(iterable, key=...)]

    Python's [sorted] is stable and compares keys with [<] only.  On keys
    that [<] orders consistently a stable sort has one possible result,
    so it is modelled by insertion from the right: an element goes in
    front of the first later element whose key is not smaller than its
    own. *)
Section sorted.
Context {A K : Type} (lt : K → K → bool) (sort_key : A → K).

Fixpoint insert_stable (x : A) (l : list A) : list A :=
  match l with
  | [] => [x]
  | y :: ys =>
      if lt (sort_key y) (sort_key x) then y :: insert_stable x ys
      else x :: y :: ys
  end.

Definition sorted (l : list A) : list A := foldr insert_stable [] l.
End sorted.

(** ** Collaborators *)

(** The module [tap_s3_csv.s3] as far as the sync uses it: the names of
    the three reserved columns, the file selector and the opener. *)
Record S3 := {
  SDC_SOURCE_BUCKET_COLUMN : string;
  SDC_SOURCE_FILE_COLUMN : string;
  SDC_SOURCE_LINENO_COLUMN : string;
  get_input_files_for_table :
    gmap string string → table_spec → datetime → result (list s3_file);
  get_file_handle : gmap string string → string → result file_handle
}.

(** The libraries around the sync: [singer.utils.strptime_with_tz],
    [importlib.import_module], the default decoder
    [singer_encodings.csv], and [Transformer().transform(rec, schema,
    metadata.to_map(md))]. *)
Record Libraries (Schema Metadata : Type) := {
  strptime_with_tz : string → result datetime;
  import_module : string → import_result;
  singer_encodings_csv : encoding_module;
  transform : row → Schema → Metadata → result row
}.
Arguments strptime_with_tz {Schema Metadata} l.
Arguments import_module {Schema Metadata} l.
Arguments singer_encodings_csv {Schema Metadata} l.
Arguments transform {Schema Metadata} l.

(** ** The sync (sync.py, lines 16-102) *)

Section sync.
Context {Schema Metadata : Type}.
Variable lib : Libraries Schema Metadata.
Variable s3 : S3.

(** Lines 64-73: the decoding module of one file. *)
Definition resolve_encoding_module (config : gmap string string)
  : M encoding_module :=
  let encoding_module := singer_encodings_csv lib in
  match config !! "encoding_module" with
  | Some name =>
      emit (ImportModule name) ;;;
      match import_module lib name with
      | Imported m => ret m
      | NotFound =>
          emit (Log WARNING
                  ("Failed to load encoding module [" +:+ name
                   +:+ "]. Defaulting to [singer_encodings.csv]") []) ;;;
          ret encoding_module
      | ImportFails e => raise e
      end
  | None => ret encoding_module
  end.

(** Lines 82-87: the reserved columns of the row at index
    [records_synced]. *)
Definition custom_columns (bucket s3_path : string) (records_synced : nat)
  : row :=
  <[SDC_SOURCE_LINENO_COLUMN s3 := PInt (Z.of_nat records_synced + 2)]>
    (<[SDC_SOURCE_FILE_COLUMN s3 := PStr s3_path]>
       (<[SDC_SOURCE_BUCKET_COLUMN s3 := PStr bucket]> ∅)).

(** Lines 79-102: the loop [for row in iterator], with the counter
    [records_synced] as accumulator. *)
Fixpoint sync_rows (bucket s3_path table_name : string)
    (stream : catalog_entry Schema Metadata) (last_modified : datetime)
    (rows : list row) (iter_fault : option exn) (records_synced : nat)
  : M nat :=
  match rows with
  | [] =>
      match iter_fault with
      | Some e => raise e
      | None => ret records_synced
      end
  | row :: rest =>
      let rec := custom_columns bucket s3_path records_synced ∪ row in
      emit (Transform rec) ;;;
      to_write <- lift (transform lib rec (schema stream) (metadata stream)) ;;
      let to_write_with_sequence :=
        RecordMessageWithSequence.__init__
          {| singer.stream := table_name; singer.record := to_write |}
          last_modified in
      emit (WriteMessage to_write_with_sequence) ;;;
      sync_rows bucket s3_path table_name stream last_modified
        rest iter_fault (S records_synced)
  end.

Definition sync_table_file (config : gmap string string) (s3_path : string)
    (table_spec : table_spec) (stream : catalog_entry Schema Metadata)
    (last_modified : datetime) : M nat :=
  emit (Log INFO ("Syncing file " +:+ dquote +:+ "%s" +:+ dquote +:+ ".")
          [LStr s3_path]) ;;;
  bucket <- getitem config "bucket" ;;
  let table_name := table_name table_spec in
  emit (GetFileHandle s3_path) ;;;
  s3_file_handle <- lift (get_file_handle s3 config s3_path) ;;
  emit FieldSizeLimit ;;;
  encoding_module <- resolve_encoding_module config ;;
  iterator <- lift (get_row_iterator encoding_module
                      (_raw_stream s3_file_handle) table_spec) ;;
  sync_rows bucket s3_path table_name stream last_modified
    (rows iterator) (iter_fault iterator) 0.

(** Lines 33-41: the loop over the sorted files.  [state] is the
    caller's state object and [records_streamed] the running total; the
    result carries the state object as the loop leaves it. *)
Fixpoint sync_files (config : gmap string string) (table_spec : table_spec)
    (stream : catalog_entry Schema Metadata) (files : list s3_file)
    (state : singer.State) (records_streamed : nat)
  : list event * singer.State * result nat :=
  match files with
  | [] => ([], state, OK records_streamed)
  | s3_file :: rest =>
      match sync_table_file config (key s3_file) table_spec stream
              (last_modified s3_file) with
      | (tr, Raise e) => (tr, state, Raise e)
      | (tr, OK n) =>
          let state := singer.write_bookmark state (table_name table_spec)
                         "modified_since"
                         (isoformat (last_modified s3_file)) in
          let '(tr', state', r) :=
            sync_files config table_spec stream rest state
              (records_streamed + n) in
          (tr ++ WriteState state :: tr', state', r)
      end
  end.

(** Lines 18-20: the watermark, [get_bookmark(...) or
    config["start_date"]], parsed.  A bookmark that is [None] or the
    empty string is falsy, and then the start date is read. *)
Definition read_modified_since (config : gmap string string)
    (state : singer.State) (table_spec : table_spec) : M datetime :=
  let table_name := table_name table_spec in
  since <- match singer.get_bookmark state table_name "modified_since" with
           | Some b => if decide (b = EmptyString)
                       then getitem config "start_date" else ret b
           | None => getitem config "start_date"
           end ;;
  lift (strptime_with_tz lib since).

(** Lines 18-25: the watermark is read, and the selector is asked for
    the files modified since. *)
Definition select_files (config : gmap string string) (state : singer.State)
    (table_spec : table_spec) : M (list s3_file) :=
  let table_name := table_name table_spec in
  modified_since <- read_modified_since config state table_spec ;;
  emit (Log INFO ("Syncing table " +:+ dquote +:+ "%s" +:+ dquote +:+ ".")
          [LStr table_name]) ;;;
  emit (Log INFO "Getting files modified since %s." [LTime modified_since]) ;;;
  emit (GetInputFiles modified_since) ;;;
  lift (get_input_files_for_table s3 config table_spec modified_since).

Definition sync_stream (config : gmap string string) (state : singer.State)
    (table_spec : table_spec) (stream : catalog_entry Schema Metadata)
  : list event * singer.State * result nat :=
  let table_name := table_name table_spec in
  match select_files config state table_spec with
  | (tr, Raise e) => (tr, state, Raise e)
  | (tr, OK s3_files) =>
      let '(tr', state', r) :=
        sync_files config table_spec stream
          (sorted dt_lt last_modified s3_files) state 0 in
      match r with
      | Raise e => (tr ++ tr', state', Raise e)
      | OK records_streamed =>
          (tr ++ tr'
             ++ [Log INFO ("Wrote %s records for table " +:+ dquote +:+ "%s"
                           +:+ dquote +:+ ".")
                   [LInt (Z.of_nat records_streamed); LStr table_name]],
           state', OK records_streamed)
      end
  end.

End sync.

(** ** Observations on a trace *)

Definition messages (tr : list event) : list RecordMessageWithSequence.t :=
  omap (λ ev, match ev with WriteMessage m => Some m | _ => None end) tr.

Definition state_writes (tr : list event) : list singer.State :=
  omap (λ ev, match ev with WriteState st => Some st | _ => None end) tr.

Definition imports (tr : list event) : list string :=
  omap (λ ev, match ev with ImportModule name => Some name | _ => None end) tr.

Definition transform_calls (tr : list event) : list row :=
  omap (λ ev, match ev with Transform rec => Some rec | _ => None end) tr.

Definition files_opened (tr : list event) : list string :=
  omap (λ ev, match ev with GetFileHandle p => Some p | _ => None end) tr.

Definition warnings (tr : list event) : list string :=
  omap (λ ev, match ev with Log WARNING msg _ => Some msg | _ => None end) tr.

(** ** Vocabulary of the statements *)

(** The order of time: by the instant of the key. *)
Definition key_le {A : Type} (sort_key : A → datetime) (a b : A) : Prop :=
  (epoch_us (sort_key a) ≤ epoch_us (sort_key b))%Z.

(** The order [sorted] works with: [b]'s key is not smaller than [a]'s
    key for Python's [<], so [a] may stand in front of [b]. *)
Definition not_after {A : Type} (sort_key : A → datetime) (a b : A) : Prop :=
  dt_lt (sort_key b) (sort_key a) = false.

(** A tie: neither key is smaller than the other. *)
Definition tied {A : Type} (sort_key : A → datetime) (a b : A) : Prop :=
  dt_lt (sort_key a) (sort_key b) = false
  ∧ dt_lt (sort_key b) (sort_key a) = false.

#[global] Instance tied_dec {A : Type} (sort_key : A → datetime) (a b : A) :
  Decision (tied sort_key a b).
Proof. unfold tied. apply _. Defined.

(** Python's [<] orders the keys of [l] consistently: "not smaller than"
    is transitive on them.  This holds of keys that share one [tzinfo],
    and of keys that carry one UTC offset; on other lists [sorted] has no
    defined outcome. *)
Definition consistent_on {A : Type} (sort_key : A → datetime) (l : list A)
  : Prop :=
  Forall (λ a, Forall (λ b, Forall (λ c,
    dt_lt (sort_key a) (sort_key b) = false →
    dt_lt (sort_key b) (sort_key c) = false →
    dt_lt (sort_key a) (sort_key c) = false) l) l) l.

#[global] Instance consistent_on_dec {A : Type} (sort_key : A → datetime)
  (l : list A) : Decision (consistent_on sort_key l).
Proof. unfold consistent_on. apply _. Defined.

(** The warning of lines 71-73. *)
Definition failed_to_load (name : string) : event :=
  Log WARNING ("Failed to load encoding module [" +:+ name
               +:+ "]. Defaulting to [singer_encodings.csv]") [].

(** The first event of [sync_table_file]. *)
Definition syncing_file (p : string) : event :=
  Log INFO ("Syncing file " +:+ dquote +:+ "%s" +:+ dquote +:+ ".") [LStr p].

(** The message written for a coerced record (sync.py, lines 95-97). *)
Definition message_of (tn : string) (lm : datetime) (to_write : row)
  : RecordMessageWithSequence.t :=
  RecordMessageWithSequence.__init__
    {| singer.stream := tn; singer.record := to_write |} lm.

(** The watermark commit of one completed file (sync.py, lines 38-40). *)
Definition commit (ts : table_spec) (st : singer.State) (f : s3_file)
  : singer.State :=
  singer.write_bookmark st (table_name ts) "modified_since"
    (isoformat (last_modified f)).

(** The states written while the files [fs] complete one after the other. *)
Fixpoint commits (ts : table_spec) (st : singer.State) (fs : list s3_file)
  : list singer.State :=
  match fs with
  | [] => []
  | f :: fs => commit ts st f :: commits ts (commit ts st f) fs
  end.

Section vocabulary.
Context {Schema Metadata : Type}.
Variable lib : Libraries Schema Metadata.
Variable s3 : S3.

(** The run of [sync_table_file] on a descriptor. *)
Definition file_run (config : gmap string string) (ts : table_spec)
    (stream : catalog_entry Schema Metadata) (f : s3_file) : M nat :=
  sync_table_file lib s3 config (key f) ts stream (last_modified f).

(** The trace of files that complete one after the other from [st]. *)
Fixpoint committed_trace (config : gmap string string) (ts : table_spec)
    (stream : catalog_entry Schema Metadata) (fs : list s3_file)
    (st : singer.State) : list event :=
  match fs with
  | [] => []
  | f :: fs =>
      (file_run config ts stream f).1
        ++ WriteState (commit ts st f)
        :: committed_trace config ts stream fs (commit ts st f)
  end.

(** Lines 75-102 with the decoding module [em]: the iterator is obtained
    and its rows are streamed. *)
Definition decode_and_sync (em : encoding_module) (bucket s3_path : string)
    (ts : table_spec) (stream : catalog_entry Schema Metadata)
    (last_modified : datetime) (h : file_handle) : M nat :=
  iterator <- lift (get_row_iterator em (_raw_stream h) ts) ;;
  sync_rows lib s3 bucket s3_path (table_name ts) stream last_modified
    (rows iterator) (iter_fault iterator) 0.
End vocabulary.

(** The sequence numbers written, in the order of the messages. *)
Definition sequences (tr : list event) : list Z :=
  RecordMessageWithSequence.last_modified <$> messages tr.

(** The closing log line of [sync_stream] (sync.py, line 43). *)
Definition wrote (records_streamed : nat) (tn : string) : event :=
  Log INFO ("Wrote %s records for table " +:+ dquote +:+ "%s" +:+ dquote +:+ ".")
    [LInt (Z.of_nat records_streamed); LStr tn].

(** The log lines that report a count and a table: their arguments. *)
Definition summaries (tr : list event) : list (Z * string) :=
  omap (λ ev, match ev with
              | Log INFO _ [LInt n; LStr t] => Some (n, t)
              | _ => None
              end) tr.

(** The two log lines and the listing call that follow the reading of
    the watermark (sync.py, lines 22-25). *)
Definition listing (tn : string) (modified_since : datetime) : list event :=
  [Log INFO ("Syncing table " +:+ dquote +:+ "%s" +:+ dquote +:+ ".") [LStr tn];
   Log INFO "Getting files modified since %s." [LTime modified_since];
   GetInputFiles modified_since].

(** ** A test world: the scenario of two files A and B *)

Module Scenario.

Definition config : gmap string string :=
  <["start_date" := "2020-01-01T00:00:00Z"]> (<["bucket" := "my-bucket"]> ∅).

Definition config_unknown_module : gmap string string :=
  <["encoding_module" := "no.such.module"]> config.

Definition orders : table_spec :=
  {| table_name := "orders"; table_options := ∅ |}.

(** The [tzinfo] objects of the scenario: 0 is UTC, 1 a zone with
    daylight saving (America/New_York). *)
Definition utc (seconds : Z) : datetime :=
  {| epoch_us := seconds * 1000000; utcoffset := 0; tzinfo := 0 |}.



Definition file_A : s3_file := {| key := "a.csv"; last_modified := utc 1580515200 |}.
Definition file_B : s3_file := {| key := "b.csv"; last_modified := utc 1583020800 |}.

(** A decoder double: every byte is one row, the byte [xff] is a
    decode error. *)
Fixpoint decode (bs : list Byte.byte) : row_iterator :=
  match bs with
  | [] => {| rows := []; iter_fault := None |}
  | Byte.xff :: _ =>
      {| rows := []; iter_fault := Some (Fault "UnicodeDecodeError" "invalid start byte") |}
  | b :: bs =>
      let it := decode bs in
      {| rows := {["v" := PInt (Z.of_N (Byte.to_N b))]} :: rows it;
         iter_fault := iter_fault it |}
  end.

Definition csv : encoding_module :=
  {| get_row_iterator := λ bs _, OK (decode bs) |}.

(** A parser double that knows the dates of the scenario. *)
Definition parse (s : string) : result datetime :=
  if decide (s = "2020-01-01T00:00:00Z") then OK (utc 1577836800)
  else if decide (s = "2020-02-01T00:00:00+00:00") then OK (utc 1580515200)
  else if decide (s = "2020-03-01T00:00:00+00:00") then OK (utc 1583020800)
  else Raise (Fault "ParserError" s).

Definition lib : Libraries unit unit :=
  {| strptime_with_tz := parse;
     import_module := λ _, NotFound;
     singer_encodings_csv := csv;
     transform := λ rec _ _, OK rec |}.

(** A decoder double whose rows already hold the reserved names. *)
Definition colliding : encoding_module :=
  {| get_row_iterator := λ bs _,
       OK {| rows := (λ b, <["_sdc_source_bucket" := PStr "decoded"]>
                             (<["_sdc_source_file" := PStr "decoded"]>
                                (<["_sdc_source_lineno" := PInt 0]>
                                   {["v" := PInt (Z.of_N (Byte.to_N b))]})))
                     <$> bs;
             iter_fault := None |} |}.

Definition lib_colliding : Libraries unit unit :=
  {| strptime_with_tz := parse;
     import_module := λ _, NotFound;
     singer_encodings_csv := colliding;
     transform := λ rec _ _, OK rec |}.

(** A bucket double: [listing] is what the bucket holds, [content] what
    each object holds. *)
Definition bucket (listing : list s3_file) (content : string → list Byte.byte) : S3 :=
  {| SDC_SOURCE_BUCKET_COLUMN := "_sdc_source_bucket";
     SDC_SOURCE_FILE_COLUMN := "_sdc_source_file";
     SDC_SOURCE_LINENO_COLUMN := "_sdc_source_lineno";
     get_input_files_for_table := λ _ _ since,
       OK (List.filter (λ f, dt_lt since (last_modified f)) listing);
     get_file_handle := λ _ p, OK {| _raw_stream := content p |} |}.

Definition one_row (p : string) : list Byte.byte := [Byte.x01].

(** In [b.csv] the third byte does not decode. *)
Definition broken_B (p : string) : list Byte.byte :=
  if decide (p = "b.csv") then [Byte.x01; Byte.x02; Byte.xff; Byte.x04]
  else [Byte.x01].

Definition stream : catalog_entry unit unit := {| schema := tt; metadata := tt |}.

Definition three_rows (p : string) : list Byte.byte := [Byte.x0a; Byte.x0b; Byte.x0c].

Definition empty_state : singer.State :=
  {| singer.bookmarks := None; singer.other_keys := ∅ |}.

(** The state a sync of A and B leaves behind. *)
Definition synced_state : singer.State :=
  {| singer.bookmarks :=
       Some {["orders" := {["modified_since" := "2020-03-01T00:00:00+00:00"]}]};
     singer.other_keys := ∅ |}.

Definition config_no_start_date : gmap string string :=
  <["bucket" := "my-bucket"]> ∅.

Definition config_no_bucket : gmap string string :=
  <["start_date" := "2020-01-01T00:00:00Z"]> ∅.

(** A bucket double whose listing is refused. *)
Definition unreachable : S3 :=
  {| SDC_SOURCE_BUCKET_COLUMN := "_sdc_source_bucket";
     SDC_SOURCE_FILE_COLUMN := "_sdc_source_file";
     SDC_SOURCE_LINENO_COLUMN := "_sdc_source_lineno";
     get_input_files_for_table := λ _ _ _, Raise (Fault "ClientError" "AccessDenied");
     get_file_handle := λ _ p, Raise (Fault "ClientError" "AccessDenied") |}.

(** An environment with two more modules: [my.decoder] imports,
    [broken.decoder] raises while it is imported. *)
Definition import_double (name : string) : import_result :=
  if decide (name = "my.decoder") then Imported colliding
  else if decide (name = "broken.decoder")
       then ImportFails (Fault "SyntaxError" "invalid syntax")
       else NotFound.

Definition lib_modules : Libraries unit unit :=
  {| strptime_with_tz := parse;
     import_module := import_double;
     singer_encodings_csv := csv;
     transform := λ rec _ _, OK rec |}.

Definition config_my_decoder : gmap string string :=
  <["encoding_module" := "my.decoder"]> config.


(** A transformer double that rejects the value 11. *)
Definition lib_strict : Libraries unit unit :=
  {| strptime_with_tz := parse;
     import_module := λ _, NotFound;
     singer_encodings_csv := csv;
     transform := λ rec _ _,
       match rec !! "v" with
       | Some (PInt 11) => Raise (Fault "SchemaMismatch" "v")
       | _ => OK rec
       end |}.

End Scenario.

(** ** Facts about the monad and the observations *)

Lemma bind_OK {A B} (tr : list event) (a : A) (f : A → M B) :
  bind (tr, OK a) f = (tr ++ (f a).1, (f a).2).
Proof. unfold bind. by destruct (f a). Qed.

Lemma bind_Raise {A B} (tr : list event) (e : exn) (f : A → M B) :
  bind (tr, Raise e) f = (tr, Raise e).
Proof. done. Qed.

Lemma messages_app tr1 tr2 : messages (tr1 ++ tr2) = messages tr1 ++ messages tr2.
Proof. apply omap_app. Qed.

Lemma state_writes_app tr1 tr2 :
  state_writes (tr1 ++ tr2) = state_writes tr1 ++ state_writes tr2.
Proof. apply omap_app. Qed.

Lemma imports_app tr1 tr2 : imports (tr1 ++ tr2) = imports tr1 ++ imports tr2.
Proof. apply omap_app. Qed.

Lemma transform_calls_app tr1 tr2 :
  transform_calls (tr1 ++ tr2) = transform_calls tr1 ++ transform_calls tr2.
Proof. apply omap_app. Qed.

Lemma files_opened_app tr1 tr2 :
  files_opened (tr1 ++ tr2) = files_opened tr1 ++ files_opened tr2.
Proof. apply omap_app. Qed.

Lemma warnings_app tr1 tr2 : warnings (tr1 ++ tr2) = warnings tr1 ++ warnings tr2.
Proof. apply omap_app. Qed.

Create Rewrite HintDb obs.
#[global] Hint Rewrite messages_app state_writes_app imports_app
  transform_calls_app files_opened_app warnings_app : obs.

(** ** Facts about the comparison and the stable sort *)

Lemma dt_lt_asym a b : dt_lt a b = true → dt_lt b a = false.
Proof.
  unfold dt_lt. rewrite (Nat.eqb_sym (tzinfo b)), (Z.eqb_sym (utcoffset b)).
  destruct (tzinfo a =? tzinfo b)%nat; [|destruct (utcoffset a =? utcoffset b)%Z];
    intros H; apply Z.ltb_lt in H; apply Z.ltb_ge; lia.
Qed.

(** Between keys of one UTC offset, [<] is the order of the instants. *)
Lemma dt_lt_same_offset a b :
  utcoffset a = utcoffset b → dt_lt a b = (epoch_us a <? epoch_us b)%Z.
Proof.
  intros Hoff. unfold dt_lt, wall_us. rewrite Hoff, Z.eqb_refl.
  assert ((epoch_us a + utcoffset b * 60000000 <? epoch_us b + utcoffset b * 60000000)%Z
          = (epoch_us a <? epoch_us b)%Z) as ->.
  { destruct (Z.ltb_spec (epoch_us a) (epoch_us b));
      [apply Z.ltb_lt | apply Z.ltb_ge]; lia. }
  by destruct (tzinfo a =? tzinfo b)%nat.
Qed.

Lemma StronglySorted_weaken_elem {A} (R R' : A → A → Prop) (l : list A) :
  (∀ a b, a ∈ l → b ∈ l → R a b → R' a b) →
  StronglySorted R l → StronglySorted R' l.
Proof.
  intros Himpl Hs. induction Hs as [|x l Hs IH Hall]; constructor.
  - apply IH. intros a b Ha Hb. apply Himpl; by right.
  - rewrite Forall_forall in Hall. apply Forall_forall. intros y Hy.
    apply Himpl; [by left | by right | by apply Hall].
Qed.

Section sorted_facts.
Context {A : Type} (sort_key : A → datetime).

Lemma insert_stable_perm x l : insert_stable dt_lt sort_key x l ≡ₚ x :: l.
Proof.
  induction l as [|y ys IH]; simpl; [done|].
  destruct (dt_lt _ _); [|done].
  rewrite IH. apply Permutation_swap.
Qed.

Lemma sorted_perm l : sorted dt_lt sort_key l ≡ₚ l.
Proof.
  induction l as [|x l IH]; simpl; [done|].
  by rewrite insert_stable_perm, IH.
Qed.

Lemma consistent_on_elem l :
  consistent_on sort_key l ↔
  ∀ a b c, a ∈ l → b ∈ l → c ∈ l →
    dt_lt (sort_key a) (sort_key b) = false →
    dt_lt (sort_key b) (sort_key c) = false →
    dt_lt (sort_key a) (sort_key c) = false.
Proof.
  unfold consistent_on. rewrite Forall_forall.
  setoid_rewrite Forall_forall. setoid_rewrite Forall_forall. naive_solver.
Qed.

(** Keys of one UTC offset are ordered consistently. *)
Lemma same_offset_consistent l off :
  Forall (λ a, utcoffset (sort_key a) = off) l → consistent_on sort_key l.
Proof.
  rewrite Forall_forall. intros Hoff. apply consistent_on_elem.
  intros a b c Ha Hb Hc.
  rewrite !dt_lt_same_offset by (rewrite !Hoff; done).
  rewrite !Z.ltb_ge. lia.
Qed.

Section within.
Variable L : list A.
Hypothesis consistent : consistent_on sort_key L.

Lemma insert_stable_sorted x l :
  x ∈ L → (∀ y, y ∈ l → y ∈ L) →
  StronglySorted (not_after sort_key) l →
  StronglySorted (not_after sort_key) (insert_stable dt_lt sort_key x l).
Proof.
  pose proof (proj1 (consistent_on_elem L) consistent) as Hnt.
  intros Hx Hl Hs. induction Hs as [|y ys Hs IH Hall]; simpl.
  - by repeat constructor.
  - destruct (dt_lt (sort_key y) (sort_key x)) eqn:Hlt.
    + constructor; [apply IH; intros z Hz; apply Hl; by right|].
      rewrite insert_stable_perm. constructor; [|done].
      unfold not_after. by apply dt_lt_asym.
    + constructor; [by constructor|].
      constructor; [done|].
      rewrite Forall_forall in Hall. apply Forall_forall. intros z Hz.
      unfold not_after in *.
      apply (Hnt z y x); [apply Hl; by right | apply Hl; by left | done | | done].
      by apply Hall.
Qed.

Lemma sorted_sorted_within l :
  (∀ y, y ∈ l → y ∈ L) →
  StronglySorted (not_after sort_key) (sorted dt_lt sort_key l).
Proof.
  induction l as [|x l IH]; intros Hl; simpl; [constructor|].
  apply insert_stable_sorted; [apply Hl; by left | |].
  - intros y Hy. rewrite sorted_perm in Hy. apply Hl. by right.
  - apply IH. intros y Hy. apply Hl. by right.
Qed.



End within.

(** On consistently ordered keys the sorted list is in order for [<]. *)
Lemma sorted_sorted l :
  consistent_on sort_key l →
  StronglySorted (not_after sort_key) (sorted dt_lt sort_key l).
Proof. intros Hc. by apply (sorted_sorted_within l Hc). Qed.


(** Keys of one UTC offset are sorted into the order of time. *)
Lemma sorted_by_instant l off :
  Forall (λ a, utcoffset (sort_key a) = off) l →
  StronglySorted (key_le sort_key) (sorted dt_lt sort_key l).
Proof.
  intros Hoff.
  eapply StronglySorted_weaken_elem;
    [|apply sorted_sorted; by eapply same_offset_consistent].
  rewrite Forall_forall in Hoff.
  intros a b Ha Hb. rewrite sorted_perm in Ha, Hb.
  unfold not_after, key_le.
  rewrite dt_lt_same_offset by (rewrite !Hoff; done).
  rewrite Z.ltb_ge. lia.
Qed.

Lemma insert_stable_least x l :
  Forall (not_after sort_key x) l → insert_stable dt_lt sort_key x l = x :: l.
Proof.
  destruct 1 as [|y l Hle _]; [done|]. cbn [insert_stable].
  unfold not_after in Hle. by rewrite Hle.
Qed.

(** A list that is in order for [<] already is its own sorted list. *)
Lemma sorted_of_sorted l :
  StronglySorted (not_after sort_key) l → sorted dt_lt sort_key l = l.
Proof.
  induction 1 as [|x l Hs IH Hall]; [done|].
  cbn [sorted foldr]. fold (sorted dt_lt sort_key l).
  rewrite IH. by apply insert_stable_least.
Qed.
End sorted_facts.

(** ** Facts about one file *)

Section file_facts.
Context {Schema Metadata : Type}.
Variable lib : Libraries Schema Metadata.
Variable s3 : S3.
Implicit Types (config : gmap string string) (tr : list event).
Implicit Types (stream : catalog_entry Schema Metadata).

Lemma sync_rows_cons b p tn stream lm row rest fault n :
  sync_rows lib s3 b p tn stream lm (row :: rest) fault n
  = match transform lib (custom_columns s3 b p n ∪ row)
            (schema stream) (metadata stream) with
    | OK w =>
        (Transform (custom_columns s3 b p n ∪ row)
           :: WriteMessage (message_of tn lm w)
           :: (sync_rows lib s3 b p tn stream lm rest fault (S n)).1,
         (sync_rows lib s3 b p tn stream lm rest fault (S n)).2)
    | Raise e => ([Transform (custom_columns s3 b p n ∪ row)], Raise e)
    end.
Proof.
  cbn [sync_rows]. unfold emit, lift, bind.
  destruct (transform lib _ _ _); [|done].
  by destruct (sync_rows _ _ _ _ _ _ _ _ _ _).
Qed.

Lemma sync_rows_nil b p tn stream lm fault n :
  sync_rows lib s3 b p tn stream lm [] fault n
  = match fault with Some e => ([], Raise e) | None => ([], OK n) end.
Proof. by destruct fault. Qed.

(** Streaming rows only calls the transformer and writes messages. *)
Lemma sync_rows_quiet b p tn stream lm rows fault n :
  let tr := (sync_rows lib s3 b p tn stream lm rows fault n).1 in
  files_opened tr = [] ∧ imports tr = [] ∧ state_writes tr = [] ∧ warnings tr = [].
Proof.
  revert n. induction rows as [|row rest IH]; intros n.
  - rewrite sync_rows_nil. by destruct fault.
  - rewrite sync_rows_cons. destruct (transform lib _ _ _); [|done].
    apply (IH (S n)).
Qed.

(** The [i]-th call of the transformer gets the [i]-th row merged with
    the reserved columns of index [n + i]. *)
Lemma sync_rows_transform_calls b p tn stream lm rows fault n i rec :
  transform_calls (sync_rows lib s3 b p tn stream lm rows fault n).1 !! i = Some rec →
  ∃ row, rows !! i = Some row ∧ rec = custom_columns s3 b p (n + i) ∪ row.
Proof.
  revert n i. induction rows as [|row rest IH]; intros n i.
  - rewrite sync_rows_nil. by destruct fault.
  - rewrite sync_rows_cons. destruct (transform lib _ _ _) as [w|e]; simpl.
    + destruct i as [|i]; simpl.
      * intros [= <-]. exists row. by rewrite Nat.add_0_r.
      * intros H. apply IH in H as (row' & Hrow & ->).
        exists row'. split; [done|]. by rewrite Nat.add_succ_r.
    + destruct i as [|i]; simpl; [|done].
      intros [= <-]. exists row. by rewrite Nat.add_0_r.
Qed.

(** The [i]-th message written comes from the [i]-th row. *)
Lemma sync_rows_messages b p tn stream lm rows fault n i m :
  messages (sync_rows lib s3 b p tn stream lm rows fault n).1 !! i = Some m →
  ∃ row w, rows !! i = Some row
    ∧ transform lib (custom_columns s3 b p (n + i) ∪ row)
        (schema stream) (metadata stream) = OK w
    ∧ m = message_of tn lm w.
Proof.
  revert n i. induction rows as [|row rest IH]; intros n i.
  - rewrite sync_rows_nil. by destruct fault.
  - rewrite sync_rows_cons.
    destruct (transform lib _ _ _) as [w|e] eqn:Hw; simpl; [|done].
    destruct i as [|i]; simpl.
    + intros [= <-]. exists row, w. by rewrite Nat.add_0_r.
    + intros H. apply IH in H as (row' & w' & Hrow & Ht & ->).
      exists row', w'. by rewrite Nat.add_succ_r.
Qed.

(** A file whose rows all stream returns their number. *)
Lemma sync_rows_OK b p tn stream lm rows fault n k :
  (sync_rows lib s3 b p tn stream lm rows fault n).2 = OK k →
  k = n + length rows ∧ fault = None
  ∧ length (messages (sync_rows lib s3 b p tn stream lm rows fault n).1)
    = length rows.
Proof.
  revert n. induction rows as [|row rest IH]; intros n.
  - rewrite sync_rows_nil. destruct fault; [done|]. simpl.
    intros [= <-]. by rewrite Nat.add_0_r.
  - rewrite sync_rows_cons. destruct (transform lib _ _ _); simpl; [|done].
    intros H. apply IH in H as (-> & -> & Hlen). simpl. rewrite Hlen.
    repeat split; lia.
Qed.

(** The same call, step by step. *)
Lemma sync_table_file_eq config p ts stream lm :
  sync_table_file lib s3 config p ts stream lm
  = match config !! "bucket" with
    | None => ([syncing_file p], Raise (KeyError "bucket"))
    | Some b =>
        match get_file_handle s3 config p with
        | Raise e => ([syncing_file p; GetFileHandle p], Raise e)
        | OK h =>
            match resolve_encoding_module lib config with
            | (tre, Raise e) =>
                ([syncing_file p; GetFileHandle p; FieldSizeLimit] ++ tre, Raise e)
            | (tre, OK em) =>
                match get_row_iterator em (_raw_stream h) ts with
                | Raise e =>
                    ([syncing_file p; GetFileHandle p; FieldSizeLimit] ++ tre,
                     Raise e)
                | OK it =>
                    let run := sync_rows lib s3 b p (table_name ts) stream lm
                                 (rows it) (iter_fault it) 0 in
                    ([syncing_file p; GetFileHandle p; FieldSizeLimit]
                       ++ tre ++ run.1, run.2)
                end
            end
        end
    end.
Proof.
  unfold sync_table_file, getitem, syncing_file.
  destruct (config !! "bucket") as [b|]; [|done].
  unfold emit, lift, ret, raise. cbn [bind].
  destruct (get_file_handle s3 config p) as [h|e]; [|done].
  cbn [bind app].
  destruct (resolve_encoding_module lib config) as [tre [em|e]]; [|done].
  cbn [bind].
  destruct (get_row_iterator em _ ts) as [it|e]; cbn [bind app].
  - destruct (sync_rows _ _ _ _ _ _ _ _ _ _) as [trr r]. simpl.
    by rewrite ?app_nil_r.
  - by rewrite ?app_nil_r.
Qed.

(** Resolution imports at most once, and only a named module. *)
Lemma resolve_encoding_module_eq config :
  resolve_encoding_module lib config
  = match config !! "encoding_module" with
    | None => ([], OK (singer_encodings_csv lib))
    | Some name =>
        match import_module lib name with
        | Imported m => ([ImportModule name], OK m)
        | NotFound =>
            ([ImportModule name;
              Log WARNING ("Failed to load encoding module [" +:+ name
                           +:+ "]. Defaulting to [singer_encodings.csv]") []],
             OK (singer_encodings_csv lib))
        | ImportFails e => ([ImportModule name], Raise e)
        end
    end.
Proof.
  unfold resolve_encoding_module.
  destruct (config !! "encoding_module") as [name|]; [|done].
  by destruct (import_module lib name).
Qed.

End file_facts.

(** ** Facts about the file loop *)

Section loop_facts.
Context {Schema Metadata : Type}.
Variable lib : Libraries Schema Metadata.
Variable s3 : S3.
Implicit Types (config : gmap string string) (tr : list event).
Implicit Types (stream : catalog_entry Schema Metadata) (f : s3_file).

(** One file never writes state, and opens its own object only. *)
Lemma file_run_quiet config ts stream f :
  let tr := (file_run lib s3 config ts stream f).1 in
  state_writes tr = [] ∧ (files_opened tr = [] ∨ files_opened tr = [key f]).
Proof.
  unfold file_run. rewrite sync_table_file_eq, resolve_encoding_module_eq.
  pose proof (sync_rows_quiet lib s3) as Hq.
  repeat case_match; simplify_eq/=; autorewrite with obs; simpl;
    try (split; [done | by auto]).
  all: match goal with
       | |- context [sync_rows lib s3 ?b ?p ?tn ?s ?lm ?rs ?fl ?n] =>
           destruct (Hq b p tn s lm rs fl n) as (-> & _ & -> & _)
       end; auto.
Qed.

Lemma file_run_opened config ts stream f n :
  (file_run lib s3 config ts stream f).2 = OK n →
  files_opened (file_run lib s3 config ts stream f).1 = [key f].
Proof.
  unfold file_run. rewrite sync_table_file_eq, resolve_encoding_module_eq.
  pose proof (sync_rows_quiet lib s3) as Hq.
  repeat case_match; simplify_eq/=; try done; intros _; autorewrite with obs; simpl.
  all: match goal with
       | |- context [sync_rows lib s3 ?b ?p ?tn ?s ?lm ?rs ?fl ?n] =>
           destruct (Hq b p tn s lm rs fl n) as (-> & _ & _ & _)
       end; auto.
Qed.

(** The central fact: a run of the loop completes a prefix [done] of the
    files, committing after each, and either ends there or stops in
    the next file, whose fault it returns. *)
Lemma sync_files_inv config ts stream files st acc tr st' r :
  sync_files lib s3 config ts stream files st acc = (tr, st', r) →
  ∃ done rest,
    files = done ++ rest
    ∧ Forall (λ f, ∃ n, (file_run lib s3 config ts stream f).2 = OK n) done
    ∧ st' = foldl (commit ts) st done
    ∧ match r with
      | OK n =>
          rest = [] ∧ tr = committed_trace lib s3 config ts stream done st
      | Raise e =>
          ∃ f rest', rest = f :: rest'
            ∧ (file_run lib s3 config ts stream f).2 = Raise e
            ∧ tr = committed_trace lib s3 config ts stream done st
                     ++ (file_run lib s3 config ts stream f).1
      end.
Proof.
  revert st acc tr st' r.
  induction files as [|f files IH]; intros st acc tr st' r; cbn [sync_files].
  - intros [= <- <- <-]. exists [], []. by repeat split.
  - fold (file_run lib s3 config ts stream f). fold (commit ts st f).
    destruct (file_run lib s3 config ts stream f) as [trf [n|e]] eqn:Hf.
    + destruct (sync_files _ _ _ _ _ _ _ _) as [[tr1 st1] r1] eqn:Hrest.
      intros [= <- <- <-].
      apply IH in Hrest as (done & rest & -> & Hdone & -> & Hr).
      exists (f :: done), rest. split; [done|]. split.
      { constructor; [|done]. rewrite Hf. by exists n. }
      split; [done|].
      destruct r1 as [k|e].
      * destruct Hr as [-> ->]. split; [done|]. cbn [committed_trace].
        by rewrite Hf.
      * destruct Hr as (g & rest' & -> & Hg & ->).
        exists g, rest'. repeat split; [done|]. cbn [committed_trace].
        rewrite Hf. simpl. by rewrite <- app_assoc.
    + intros [= <- <- <-]. exists [], (f :: files).
      repeat split; [constructor|]. exists f, files. by rewrite Hf.
Qed.

Lemma committed_trace_state_writes config ts stream fs st :
  state_writes (committed_trace lib s3 config ts stream fs st) = commits ts st fs.
Proof.
  revert st. induction fs as [|f fs IH]; intros st; cbn [committed_trace commits]; [done|].
  rewrite state_writes_app.
  destruct (file_run_quiet config ts stream f) as [-> _]. simpl.
  by rewrite IH.
Qed.

Lemma committed_trace_files_opened config ts stream fs st :
  Forall (λ f, ∃ n, (file_run lib s3 config ts stream f).2 = OK n) fs →
  files_opened (committed_trace lib s3 config ts stream fs st) = key <$> fs.
Proof.
  intros Hall. revert st.
  induction Hall as [|f fs [n Hn] _ IH]; intros st; cbn [committed_trace]; [done|].
  rewrite files_opened_app, (file_run_opened _ _ _ _ _ Hn). simpl.
  by rewrite IH.
Qed.

End loop_facts.

(** ** Facts about the table sync *)

Section stream_facts.
Context {Schema Metadata : Type}.
Variable lib : Libraries Schema Metadata.
Variable s3 : S3.
Implicit Types (config : gmap string string) (tr : list event).
Implicit Types (stream : catalog_entry Schema Metadata) (f : s3_file).

(** Reading the watermark and listing the files touches neither the
    objects, the output, the state nor the modules. *)
Lemma select_files_quiet config state ts :
  let tr := (select_files lib s3 config state ts).1 in
  files_opened tr = [] ∧ messages tr = [] ∧ state_writes tr = []
  ∧ imports tr = [] ∧ transform_calls tr = [] ∧ warnings tr = [].
Proof.
  unfold select_files, read_modified_since, getitem, emit, lift, ret, raise.
  repeat case_match; simplify_eq/=; repeat (case_match; simplify_eq/=); done.
Qed.

(** [sync_stream] is the selection followed by the loop over the sorted
    files and, when the loop returns, the closing log line. *)
Lemma sync_stream_eq config state ts stream :
  sync_stream lib s3 config state ts stream
  = match select_files lib s3 config state ts with
    | (tr0, Raise e) => (tr0, state, Raise e)
    | (tr0, OK fs) =>
        let run := sync_files lib s3 config ts stream
                     (sorted dt_lt last_modified fs) state 0 in
        (tr0 ++ run.1.1
           ++ match run.2 with
              | OK n =>
                  [Log INFO ("Wrote %s records for table " +:+ dquote +:+ "%s"
                             +:+ dquote +:+ ".")
                     [LInt (Z.of_nat n); LStr (table_name ts)]]
              | Raise _ => []
              end,
         run.1.2, run.2)
    end.
Proof.
  unfold sync_stream.
  destruct (select_files lib s3 config state ts) as [tr0 [fs|e]]; [|done].
  destruct (sync_files _ _ _ _ _ _ _ _) as [[tr1 st1] [n|e]]; simpl; [done|].
  by rewrite app_nil_r.
Qed.

End stream_facts.


(** ** Facts about bookmarks and the watermark *)

Lemma get_bookmark_write_eq st t k v :
  singer.get_bookmark (singer.write_bookmark st t k v) t k = Some v.
Proof.
  unfold singer.get_bookmark, singer.write_bookmark. simpl.
  rewrite lookup_insert_eq. simpl. by rewrite lookup_insert_eq.
Qed.

Lemma get_bookmark_write_ne st t k v t' k' :
  (t, k) ≠ (t', k') →
  singer.get_bookmark (singer.write_bookmark st t k v) t' k'
  = singer.get_bookmark st t' k'.
Proof.
  intros Hne. unfold singer.get_bookmark, singer.write_bookmark. simpl.
  destruct (decide (t = t')) as [<-|Ht].
  - rewrite lookup_insert_eq. simpl.
    rewrite lookup_insert_ne by congruence.
    by destruct (default ∅ (singer.bookmarks st) !! t).
  - by rewrite lookup_insert_ne.
Qed.

Lemma other_keys_write st t k v :
  singer.other_keys (singer.write_bookmark st t k v) = singer.other_keys st.
Proof. done. Qed.

Lemma append_nonempty (s1 s2 : string) : s2 ≠ EmptyString → s1 +:+ s2 ≠ EmptyString.
Proof. destruct s1; [done|]. discriminate. Qed.

Lemma zero_padded_nonempty w n : zero_padded (S w) n ≠ EmptyString.
Proof. cbn [zero_padded]. by apply append_nonempty. Qed.

(** An ISO-8601 timestamp is never the empty string, so a written
    watermark is truthy. *)
Lemma isoformat_nonempty d : isoformat d ≠ EmptyString.
Proof.
  unfold isoformat. destruct (civil_from_days _) as [[y m] dd].
  repeat apply append_nonempty. done.
Qed.

Lemma commits_lookup ts st fs i s :
  commits ts st fs !! i = Some s →
  ∃ f, fs !! i = Some f
    ∧ singer.get_bookmark s (table_name ts) "modified_since"
      = Some (isoformat (last_modified f)).
Proof.
  revert st i. induction fs as [|f fs IH]; intros st i; [done|].
  destruct i as [|i]; simpl.
  - intros [= <-]. exists f. split; [done|]. apply get_bookmark_write_eq.
  - apply IH.
Qed.

Lemma commits_length ts st fs : length (commits ts st fs) = length fs.
Proof. revert st. induction fs; intros st; simpl; [done|]. by rewrite IHfs. Qed.

(** After the commits of [fs] the state is the last one written, or the
    first state when nothing was written. *)
Lemma foldl_commit_last ts st fs :
  foldl (commit ts) st fs = default st (last (commits ts st fs)).
Proof.
  revert st. induction fs as [|f fs IH]; intros st; [done|].
  cbn [foldl commits]. rewrite IH.
  destruct fs as [|g fs]; [done|]. cbn [commits]. rewrite last_cons_cons.
  rewrite last_cons. by destruct (last _).
Qed.

Lemma foldl_commit_bookmark ts st fs f :
  last fs = Some f →
  singer.get_bookmark (foldl (commit ts) st fs) (table_name ts) "modified_since"
  = Some (isoformat (last_modified f)).
Proof.
  revert st. induction fs as [|g fs IH]; intros st; [done|].
  destruct fs as [|h fs].
  - intros [= <-]. apply get_bookmark_write_eq.
  - rewrite last_cons_cons. apply IH.
Qed.

Section watermark.
Context {Schema Metadata : Type}.
Variable lib : Libraries Schema Metadata.
Variable s3 : S3.
Implicit Types (config : gmap string string) (tr : list event).
Implicit Types (stream : catalog_entry Schema Metadata) (f : s3_file).

Lemma select_files_result config state ts ms :
  (read_modified_since lib config state ts).2 = OK ms →
  (select_files lib s3 config state ts).2
  = get_input_files_for_table s3 config ts ms.
Proof.
  unfold select_files.
  destruct (read_modified_since lib config state ts) as [tr0 r0]. simpl.
  intros ->. unfold emit, lift. by cbn [bind app].
Qed.

(** A written watermark is read back through the date parser. *)
Lemma read_modified_since_bookmark config state ts b :
  singer.get_bookmark state (table_name ts) "modified_since" = Some b →
  b ≠ EmptyString →
  read_modified_since lib config state ts = ([], strptime_with_tz lib b).
Proof.
  intros Hb Hne. unfold read_modified_since. rewrite Hb.
  destruct (decide (b = EmptyString)); [done|].
  unfold ret, lift. cbn [bind]. by destruct (strptime_with_tz lib b).
Qed.

(** The states a table sync writes are the commits of the files it
    completed, a prefix of the sorted file set and all of it when the
    sync returns; its final state is the result of these commits. *)
Lemma sync_stream_commits config state ts stream fs :
  (select_files lib s3 config state ts).2 = OK fs →
  let run := sync_stream lib s3 config state ts stream in
  ∃ done rest,
    sorted dt_lt last_modified fs = done ++ rest
    ∧ Forall (λ f, ∃ n, (file_run lib s3 config ts stream f).2 = OK n) done
    ∧ state_writes run.1.1 = commits ts state done
    ∧ run.1.2 = foldl (commit ts) state done
    ∧ match run.2 with
      | OK n => rest = []
      | Raise e => ∃ f rest', rest = f :: rest'
                     ∧ (file_run lib s3 config ts stream f).2 = Raise e
      end.
Proof.
  intros Hsel run. subst run. rewrite sync_stream_eq.
  pose proof (select_files_quiet lib s3 config state ts) as (_ & _ & Hq & _).
  destruct (select_files lib s3 config state ts) as [tr0 r0].
  simpl in Hsel, Hq. subst r0. cbn zeta.
  destruct (sync_files _ _ _ _ _ _ _ _) as [[tr1 st1] r1] eqn:Hrun.
  apply sync_files_inv in Hrun as (done & rest & Hfiles & Hdone & -> & Hr).
  exists done, rest. cbn [fst snd]. split; [done|]. split; [done|].
  rewrite !state_writes_app, Hq. cbn [app].
  destruct r1 as [n|e].
  - destruct Hr as [-> ->]. rewrite committed_trace_state_writes. simpl.
    by rewrite app_nil_r.
  - destruct Hr as (f & rest' & -> & Hf & ->).
    rewrite state_writes_app, committed_trace_state_writes.
    destruct (file_run_quiet lib s3 config ts stream f) as [-> _].
    simpl. rewrite !app_nil_r. eauto 6.
Qed.

End watermark.


(** ** Faults while streaming *)

Section faults.
Context {Schema Metadata : Type}.
Variable lib : Libraries Schema Metadata.
Variable s3 : S3.
Implicit Types (config : gmap string string) (tr : list event).
Implicit Types (stream : catalog_entry Schema Metadata) (f : s3_file).

(** The loop on files that complete, followed by a file that fails. *)
Lemma sync_files_app_fault config ts stream done f rest e st acc :
  Forall (λ g, ∃ n, (file_run lib s3 config ts stream g).2 = OK n) done →
  (file_run lib s3 config ts stream f).2 = Raise e →
  sync_files lib s3 config ts stream (done ++ f :: rest) st acc
  = (committed_trace lib s3 config ts stream done st
       ++ (file_run lib s3 config ts stream f).1,
     foldl (commit ts) st done, Raise e).
Proof.
  intros Hdone Hf. revert st acc.
  induction Hdone as [|g done [n Hg] _ IH]; intros st acc;
    cbn [app sync_files committed_trace foldl].
  - fold (file_run lib s3 config ts stream f).
    destruct (file_run lib s3 config ts stream f) as [trf rf].
    simpl in Hf. by subst rf.
  - fold (file_run lib s3 config ts stream g). fold (commit ts st g).
    destruct (file_run lib s3 config ts stream g) as [trg rg] eqn:Hrun.
    simpl in Hg. subst rg. rewrite IH. simpl. by rewrite <- app_assoc.
Qed.

Lemma committed_trace_messages config ts stream fs st :
  messages (committed_trace lib s3 config ts stream fs st)
  = concat ((λ g, messages (file_run lib s3 config ts stream g).1) <$> fs).
Proof.
  revert st. induction fs as [|g fs IH]; intros st; cbn [committed_trace]; [done|].
  rewrite messages_app. simpl. by rewrite IH.
Qed.

(** C3.  When the files [done] in front of [f] in the sorted order
    complete and streaming [f] raises [e], at whatever point and after
    however many of its records were written, the table sync raises [e];
    the states it wrote are the commits of [done] and nothing else, the
    state it leaves is the result of these commits (the incoming state
    when [f] is the first file), so the bookmark is the [last_modified]
    of the last completed file and not that of [f]; the records written
    are those of [done] and the ones [f] wrote before the fault. *)
Theorem fault_aborts_without_commit config state ts stream fs done f rest e :
  (select_files lib s3 config state ts).2 = OK fs →
  sorted dt_lt last_modified fs = done ++ f :: rest →
  Forall (λ g, ∃ n, (file_run lib s3 config ts stream g).2 = OK n) done →
  (file_run lib s3 config ts stream f).2 = Raise e →
  let run := sync_stream lib s3 config state ts stream in
  run.2 = Raise e
  ∧ state_writes run.1.1 = commits ts state done
  ∧ run.1.2 = foldl (commit ts) state done
  ∧ (done = [] → run.1.2 = state)
  ∧ (∀ g, last done = Some g →
       singer.get_bookmark run.1.2 (table_name ts) "modified_since"
       = Some (isoformat (last_modified g)))
  ∧ messages run.1.1
    = concat ((λ g, messages (file_run lib s3 config ts stream g).1) <$> done)
        ++ messages (file_run lib s3 config ts stream f).1.
Proof.
  intros Hsel Horder Hdone Hf run. subst run. rewrite sync_stream_eq.
  pose proof (select_files_quiet lib s3 config state ts) as (_ & Hm & Hq & _).
  destruct (select_files lib s3 config state ts) as [tr0 r0].
  simpl in Hsel, Hm, Hq. subst r0. cbn zeta.
  rewrite Horder, (sync_files_app_fault _ _ _ _ _ _ _ _ _ Hdone Hf).
  cbn [fst snd]. rewrite !state_writes_app, !messages_app, Hq, Hm.
  rewrite committed_trace_state_writes, committed_trace_messages.
  destruct (file_run_quiet lib s3 config ts stream f) as [-> _].
  simpl. rewrite !app_nil_r.
  repeat split; [by intros -> | intros g Hg; by apply foldl_commit_bookmark].
Qed.

End faults.

(** The third byte of B does not decode: A completes, B writes two
    records and fails, and the watermark stays at A. *)
Lemma fault_aborts_without_commit_witness :
  let s3 := Scenario.bucket [Scenario.file_B; Scenario.file_A] Scenario.broken_B in
  let run := sync_stream Scenario.lib s3 Scenario.config Scenario.empty_state
               Scenario.orders Scenario.stream in
  length (messages (file_run Scenario.lib s3 Scenario.config Scenario.orders
                      Scenario.stream Scenario.file_B).1) = 2
  ∧ run.2 = Raise (Fault "UnicodeDecodeError" "invalid start byte")
  ∧ length (state_writes run.1.1) = 1
  ∧ singer.get_bookmark run.1.2 "orders" "modified_since"
    = Some "2020-02-01T00:00:00+00:00".
Proof.
  intros s3 run.
  split; [vm_compute; reflexivity|].
  destruct (fault_aborts_without_commit Scenario.lib s3 Scenario.config
              Scenario.empty_state Scenario.orders Scenario.stream
              [Scenario.file_B; Scenario.file_A]
              [Scenario.file_A] Scenario.file_B []
              (Fault "UnicodeDecodeError" "invalid start byte"))
    as (Hr & Hw & _ & _ & Hb & _).
  - vm_compute; reflexivity.
  - vm_compute; reflexivity.
  - repeat constructor. exists 1. vm_compute; reflexivity.
  - vm_compute; reflexivity.
  - split; [exact Hr|]. split.
    + fold run in Hw. rewrite Hw. reflexivity.
    + refine (eq_trans (Hb Scenario.file_A _) _); vm_compute; reflexivity.
Defined.

(** ** Sequence numbers *)

Section sequence.
Context {Schema Metadata : Type}.
Variable lib : Libraries Schema Metadata.
Variable s3 : S3.
Implicit Types (config : gmap string string) (tr : list event).
Implicit Types (stream : catalog_entry Schema Metadata) (f : s3_file).

Lemma resolve_encoding_module_quiet config :
  let tr := (resolve_encoding_module lib config).1 in
  messages tr = [] ∧ transform_calls tr = [] ∧ files_opened tr = []
  ∧ state_writes tr = [].
Proof.
  cbn zeta. rewrite resolve_encoding_module_eq. repeat case_match; done.
Qed.

(** What one file hands to the transformer and writes is what the row loop
    does on the rows of its iterator, when the file gets that far. *)
Lemma sync_table_file_rows config p ts stream lm :
  let run := sync_table_file lib s3 config p ts stream lm in
  (messages run.1 = [] ∧ transform_calls run.1 = [] ∧ ∃ e, run.2 = Raise e)
  ∨ ∃ b h em it,
      config !! "bucket" = Some b
      ∧ get_file_handle s3 config p = OK h
      ∧ (resolve_encoding_module lib config).2 = OK em
      ∧ get_row_iterator em (_raw_stream h) ts = OK it
      ∧ let loop := sync_rows lib s3 b p (table_name ts) stream lm
                      (rows it) (iter_fault it) 0 in
        messages run.1 = messages loop.1
        ∧ transform_calls run.1 = transform_calls loop.1
        ∧ run.2 = loop.2.
Proof.
  cbn zeta. rewrite sync_table_file_eq.
  destruct (config !! "bucket") as [b|]; [|left; eauto].
  destruct (get_file_handle s3 config p) as [h|e]; [|left; eauto].
  destruct (resolve_encoding_module_quiet config) as (Hm & Ht & _).
  destruct (resolve_encoding_module lib config) as [tre [em|e]];
    simpl in Hm, Ht.
  - destruct (get_row_iterator em (_raw_stream h) ts) as [it|e] eqn:Hit.
    + right. exists b, h, em, it. cbn [fst snd].
      autorewrite with obs. rewrite Hm, Ht. by repeat split.
    + left. cbn [fst snd]. autorewrite with obs. rewrite Hm, Ht. eauto.
  - left. cbn [fst snd]. autorewrite with obs. rewrite Hm, Ht. eauto.
Qed.

Lemma message_of_sequence tn lm w :
  RecordMessageWithSequence.last_modified (message_of tn lm w) = int_timestamp lm
  ∧ RecordMessageWithSequence.asdict (message_of tn lm w) !! "sequence"
    = Some (singer.MInt (int_timestamp lm)).
Proof.
  split; [done|]. unfold RecordMessageWithSequence.asdict.
  by rewrite lookup_insert_eq.
Qed.

(** Every message of a file is [message_of] of its table, its
    [last_modified] and some coerced record. *)
Lemma file_messages config p ts stream lm :
  Forall (λ m, ∃ w, m = message_of (table_name ts) lm w)
    (messages (sync_table_file lib s3 config p ts stream lm).1).
Proof.
  destruct (sync_table_file_rows config p ts stream lm)
    as [(-> & _) | (b & h & em & it & _ & _ & _ & _ & -> & _)]; [constructor|].
  apply Forall_lookup. intros i m Hm.
  apply sync_rows_messages in Hm as (row & w & _ & _ & ->). by exists w.
Qed.

(** C4.  Every record message written while syncing a file carries the
    sequence [int(last_modified.timestamp())] of that file, in the wrapper
    and in its serialized dictionary, whatever the rows of the file hold:
    so any two messages of one file carry the same sequence; and every
    message a table sync writes is a message of one of the selected files
    and carries that file's sequence. *)
Theorem record_sequence_is_file_timestamp config state ts stream fs :
  (select_files lib s3 config state ts).2 = OK fs →
  (∀ p lm,
     let file_messages := messages (sync_table_file lib s3 config p ts stream lm).1 in
     Forall (λ m,
        RecordMessageWithSequence.last_modified m = int_timestamp lm
        ∧ RecordMessageWithSequence.asdict m !! "sequence"
          = Some (singer.MInt (int_timestamp lm))) file_messages
     ∧ ∀ m1 m2, m1 ∈ file_messages → m2 ∈ file_messages →
         RecordMessageWithSequence.last_modified m1
         = RecordMessageWithSequence.last_modified m2)
  ∧ Forall (λ m, ∃ f,
       f ∈ fs
       ∧ m ∈ messages (file_run lib s3 config ts stream f).1
       ∧ RecordMessageWithSequence.last_modified m
         = int_timestamp (last_modified f))
      (messages (sync_stream lib s3 config state ts stream).1.1).
Proof.
  intros Hsel.
  assert (∀ p lm, Forall (λ m,
            RecordMessageWithSequence.last_modified m = int_timestamp lm
            ∧ RecordMessageWithSequence.asdict m !! "sequence"
              = Some (singer.MInt (int_timestamp lm)))
            (messages (sync_table_file lib s3 config p ts stream lm).1)) as Hfile.
  { intros p lm. eapply Forall_impl; [apply file_messages|].
    intros m [w ->]. apply message_of_sequence. }
  split.
  { intros p lm file_messages. split; [apply Hfile|].
    intros m1 m2 H1 H2. specialize (Hfile p lm). rewrite Forall_forall in Hfile.
    destruct (Hfile m1 H1) as [-> _]. by destruct (Hfile m2 H2) as [-> _]. }
  rewrite sync_stream_eq.
  pose proof (select_files_quiet lib s3 config state ts) as (_ & Hm & _).
  destruct (select_files lib s3 config state ts) as [tr0 r0].
  simpl in Hsel, Hm. subst r0. cbn zeta.
  destruct (sync_files _ _ _ _ _ _ _ _) as [[tr1 st1] r1] eqn:Hrun.
  apply sync_files_inv in Hrun as (done & rest & Hfiles & _ & _ & Hr).
  cbn [fst snd]. rewrite !messages_app, Hm. cbn [app].
  assert (∀ g, g ∈ sorted dt_lt last_modified fs →
            Forall (λ m, ∃ f, f ∈ fs
                      ∧ m ∈ messages (file_run lib s3 config ts stream f).1
                      ∧ RecordMessageWithSequence.last_modified m
                        = int_timestamp (last_modified f))
              (messages (file_run lib s3 config ts stream g).1)) as Hone.
  { intros g Hg. rewrite (sorted_perm last_modified fs) in Hg.
    apply Forall_forall. intros m Hmg. exists g. repeat split; [done..|].
    specialize (Hfile (key g) (last_modified g)). rewrite Forall_forall in Hfile.
    by destruct (Hfile m Hmg). }
  assert (Forall (λ m, ∃ f, f ∈ fs
                   ∧ m ∈ messages (file_run lib s3 config ts stream f).1
                   ∧ RecordMessageWithSequence.last_modified m
                     = int_timestamp (last_modified f))
            (messages (committed_trace lib s3 config ts stream done state))) as Hdone.
  { rewrite committed_trace_messages. apply Forall_concat, Forall_fmap.
    apply Forall_forall. intros g Hg. apply Hone. rewrite Hfiles.
    apply elem_of_app. by left. }
  destruct r1 as [n|e].
  - destruct Hr as [-> ->]. simpl. by rewrite app_nil_r.
  - destruct Hr as (g & rest' & -> & _ & ->). simpl. rewrite app_nil_r.
    rewrite messages_app. apply Forall_app. split; [done|].
    apply Hone. rewrite Hfiles. apply elem_of_app. right. by left.
Qed.

End sequence.

(** The scenario of A and B with one row each: two records, with the
    epoch seconds of 2020-02-01 and of 2020-03-01 as sequences. *)
Lemma record_sequence_is_file_timestamp_witness :
  let s3 := Scenario.bucket [Scenario.file_B; Scenario.file_A] Scenario.one_row in
  let run := sync_stream Scenario.lib s3 Scenario.config Scenario.empty_state
               Scenario.orders Scenario.stream in
  RecordMessageWithSequence.last_modified <$> messages run.1.1
  = [1580515200%Z; 1583020800%Z]
  ∧ Forall (λ m, ∃ f,
       f ∈ [Scenario.file_B; Scenario.file_A]
       ∧ m ∈ messages (file_run Scenario.lib s3 Scenario.config Scenario.orders
                         Scenario.stream f).1
       ∧ RecordMessageWithSequence.last_modified m
         = int_timestamp (last_modified f))
      (messages run.1.1).
Proof.
  intros s3 run. split; [vm_compute; reflexivity|].
  apply (record_sequence_is_file_timestamp Scenario.lib s3 Scenario.config
           Scenario.empty_state Scenario.orders Scenario.stream
           [Scenario.file_B; Scenario.file_A]).
  vm_compute; reflexivity.
Defined.

(** ** Provenance columns *)

Section provenance.
Context {Schema Metadata : Type}.
Variable lib : Libraries Schema Metadata.
Variable s3 : S3.
Implicit Types (config : gmap string string) (tr : list event).
Implicit Types (stream : catalog_entry Schema Metadata) (f : s3_file).

Lemma custom_columns_lineno b p n :
  custom_columns s3 b p n !! SDC_SOURCE_LINENO_COLUMN s3
  = Some (PInt (Z.of_nat n + 2)).
Proof. unfold custom_columns. apply lookup_insert_eq. Qed.

(** With three different reserved names, the reserved columns hold the
    bucket, the path and the line number, and nothing else. *)
Lemma custom_columns_lookup b p n :
  NoDup [SDC_SOURCE_BUCKET_COLUMN s3; SDC_SOURCE_FILE_COLUMN s3;
         SDC_SOURCE_LINENO_COLUMN s3] →
  custom_columns s3 b p n !! SDC_SOURCE_BUCKET_COLUMN s3 = Some (PStr b)
  ∧ custom_columns s3 b p n !! SDC_SOURCE_FILE_COLUMN s3 = Some (PStr p)
  ∧ ∀ k, k ∉ [SDC_SOURCE_BUCKET_COLUMN s3; SDC_SOURCE_FILE_COLUMN s3;
              SDC_SOURCE_LINENO_COLUMN s3] →
         custom_columns s3 b p n !! k = None.
Proof.
  intros Hnd. apply NoDup_cons in Hnd as [Hb Hnd].
  apply NoDup_cons in Hnd as [Hf _].
  rewrite !not_elem_of_cons in Hb. rewrite !not_elem_of_cons in Hf.
  destruct Hb as (Hbf & Hbl & _). destruct Hf as [Hfl _].
  unfold custom_columns. repeat split.
  - rewrite lookup_insert_ne, lookup_insert_ne by done. apply lookup_insert_eq.
  - rewrite lookup_insert_ne by done. apply lookup_insert_eq.
  - intros k Hk. rewrite !not_elem_of_cons in Hk. destruct Hk as (? & ? & ? & _).
    by rewrite !lookup_insert_ne.
Qed.

(** The row loop reaches row [i] when the rows before it are coerced. *)
Lemma sync_rows_reaches b p tn stream lm rows fault n i row :
  rows !! i = Some row →
  (∀ j r, j < i → rows !! j = Some r →
     ∃ w, transform lib (custom_columns s3 b p (n + j) ∪ r)
            (schema stream) (metadata stream) = OK w) →
  transform_calls (sync_rows lib s3 b p tn stream lm rows fault n).1 !! i
  = Some (custom_columns s3 b p (n + i) ∪ row).
Proof.
  revert n i. induction rows as [|r0 rest IH]; intros n i Hrow Hbefore; [done|].
  rewrite sync_rows_cons. destruct i as [|i].
  - simpl in Hrow. injection Hrow as ->. rewrite Nat.add_0_r.
    by destruct (transform lib _ _ _).
  - destruct (Hbefore 0 r0) as [w Hw]; [lia | done |].
    rewrite Nat.add_0_r in Hw. rewrite Hw. simpl.
    rewrite Nat.add_succ_r. apply (IH (S n)); [done|].
    intros j r Hj Hr. rewrite Nat.add_succ_l, <- Nat.add_succ_r.
    apply Hbefore; [lia | done].
Qed.

(** A file that is opened and decoded does what the row loop does. *)
Lemma sync_table_file_reaches_rows config p ts stream lm b h em it :
  config !! "bucket" = Some b →
  get_file_handle s3 config p = OK h →
  (resolve_encoding_module lib config).2 = OK em →
  get_row_iterator em (_raw_stream h) ts = OK it →
  let run := sync_table_file lib s3 config p ts stream lm in
  let loop := sync_rows lib s3 b p (table_name ts) stream lm
                (rows it) (iter_fault it) 0 in
  transform_calls run.1 = transform_calls loop.1
  ∧ messages run.1 = messages loop.1
  ∧ run.2 = loop.2.
Proof.
  intros Hb Hh Hem Hit. cbn zeta. rewrite sync_table_file_eq, Hb, Hh.
  destruct (resolve_encoding_module_quiet lib config) as (Hm & Ht & _).
  destruct (resolve_encoding_module lib config) as [tre r].
  simpl in Hem, Hm, Ht. subst r. rewrite Hit. cbn [fst snd].
  autorewrite with obs. by rewrite Hm, Ht.
Qed.

(** C5.  In a file that is opened and decoded, the [N]-th data row
    ([N >= 1]) reaches the transformer, when the rows before it were
    coerced, merged with the reserved columns of index [N - 1]; the line
    number it is stamped with is [N + 1], the zero-based row index plus 2:
    the header is line 1 and the first data row line 2. *)
Theorem nth_row_line_number config p ts stream lm b h em it N row :
  config !! "bucket" = Some b →
  get_file_handle s3 config p = OK h →
  (resolve_encoding_module lib config).2 = OK em →
  get_row_iterator em (_raw_stream h) ts = OK it →
  1 ≤ N →
  rows it !! (N - 1) = Some row →
  (∀ j r, j < N - 1 → rows it !! j = Some r →
     ∃ w, transform lib (custom_columns s3 b p j ∪ r)
            (schema stream) (metadata stream) = OK w) →
  ∃ rec,
    transform_calls (sync_table_file lib s3 config p ts stream lm).1 !! (N - 1)
    = Some rec
    ∧ rec = custom_columns s3 b p (N - 1) ∪ row
    ∧ rec !! SDC_SOURCE_LINENO_COLUMN s3 = Some (PInt (Z.of_nat N + 1))
    ∧ rec !! SDC_SOURCE_LINENO_COLUMN s3 = Some (PInt (Z.of_nat (N - 1) + 2)).
Proof.
  intros Hb Hh Hem Hit HN Hrow Hbefore.
  exists (custom_columns s3 b p (N - 1) ∪ row).
  destruct (sync_table_file_reaches_rows config p ts stream lm b h em it
              Hb Hh Hem Hit) as (-> & _).
  split; [|split; [done|]].
  - by apply (sync_rows_reaches b p (table_name ts) stream lm (rows it)
                (iter_fault it) 0 (N - 1) row).
  - assert ((custom_columns s3 b p (N - 1) ∪ row) !! SDC_SOURCE_LINENO_COLUMN s3
            = Some (PInt (Z.of_nat (N - 1) + 2))) as Hl.
    { apply lookup_union_Some_l, custom_columns_lineno. }
    split; [|done]. rewrite Hl. do 2 f_equal. lia.
Qed.

(** C6.  Every record handed to the transformer is a decoded row of the
    file merged with the reserved columns, and the merge never fails: in
    it the three reserved names hold the bucket, the path of the file
    and the line number, whatever the decoded row holds under these
    names, and every other field is the decoded one. *)
Theorem reserved_fields_overwrite config p ts stream lm i rec :
  NoDup [SDC_SOURCE_BUCKET_COLUMN s3; SDC_SOURCE_FILE_COLUMN s3;
         SDC_SOURCE_LINENO_COLUMN s3] →
  transform_calls (sync_table_file lib s3 config p ts stream lm).1 !! i = Some rec →
  ∃ b h em it row,
    config !! "bucket" = Some b
    ∧ get_file_handle s3 config p = OK h
    ∧ (resolve_encoding_module lib config).2 = OK em
    ∧ get_row_iterator em (_raw_stream h) ts = OK it
    ∧ rows it !! i = Some row
    ∧ rec = custom_columns s3 b p i ∪ row
    ∧ rec !! SDC_SOURCE_BUCKET_COLUMN s3 = Some (PStr b)
    ∧ rec !! SDC_SOURCE_FILE_COLUMN s3 = Some (PStr p)
    ∧ rec !! SDC_SOURCE_LINENO_COLUMN s3 = Some (PInt (Z.of_nat i + 2))
    ∧ ∀ k, k ∉ [SDC_SOURCE_BUCKET_COLUMN s3; SDC_SOURCE_FILE_COLUMN s3;
                SDC_SOURCE_LINENO_COLUMN s3] → rec !! k = row !! k.
Proof.
  intros Hnd Hrec.
  destruct (sync_table_file_rows lib s3 config p ts stream lm)
    as [(_ & Hnone & _) | (b & h & em & it & Hb & Hh & Hem & Hit & _ & Hcalls & _)].
  { by rewrite Hnone in Hrec. }
  rewrite Hcalls in Hrec.
  apply sync_rows_transform_calls in Hrec as (row & Hrow & ->).
  destruct (custom_columns_lookup b p i Hnd) as (Hcb & Hcf & Hother).
  exists b, h, em, it, row. simpl.
  repeat split; try done; try by apply lookup_union_Some_l.
  - apply lookup_union_Some_l, custom_columns_lineno.
  - intros k Hk. apply lookup_union_r. by apply Hother.
Qed.

End provenance.

(** The second data row of a file of three rows is stamped with line 3. *)
Lemma nth_row_line_number_witness :
  let s3 := Scenario.bucket [Scenario.file_A] Scenario.three_rows in
  ∃ rec,
    transform_calls
      (sync_table_file Scenario.lib s3 Scenario.config "a.csv" Scenario.orders
         Scenario.stream (Scenario.utc 1580515200)).1 !! (2 - 1) = Some rec
    ∧ rec = custom_columns s3 "my-bucket" "a.csv" (2 - 1) ∪ {["v" := PInt 11]}
    ∧ rec !! "_sdc_source_lineno" = Some (PInt (Z.of_nat 2 + 1))
    ∧ rec !! "_sdc_source_lineno" = Some (PInt (Z.of_nat (2 - 1) + 2)).
Proof.
  intros s3.
  apply (nth_row_line_number Scenario.lib s3 Scenario.config "a.csv"
           Scenario.orders Scenario.stream (Scenario.utc 1580515200)
           "my-bucket" {| _raw_stream := Scenario.three_rows "a.csv" |}
           Scenario.csv (Scenario.decode (Scenario.three_rows "a.csv")) 2).
  - vm_compute; reflexivity.
  - reflexivity.
  - reflexivity.
  - reflexivity.
  - lia.
  - vm_compute; reflexivity.
  - intros j r Hj Hr. eexists. reflexivity.
Defined.

(** The decoder yields rows that already hold the three reserved names:
    the record of the first row holds the reserved values. *)
Lemma reserved_fields_overwrite_witness :
  let s3 := Scenario.bucket [Scenario.file_A] Scenario.one_row in
  let decoded : row :=
    <["_sdc_source_bucket" := PStr "decoded"]>
      (<["_sdc_source_file" := PStr "decoded"]>
         (<["_sdc_source_lineno" := PInt 0]> {["v" := PInt 1]})) in
  let rec := custom_columns s3 "my-bucket" "a.csv" 0 ∪ decoded in
  transform_calls
    (sync_table_file Scenario.lib_colliding s3 Scenario.config "a.csv"
       Scenario.orders Scenario.stream (Scenario.utc 1580515200)).1 !! 0
  = Some rec
  ∧ rec !! "_sdc_source_bucket" = Some (PStr "my-bucket")
  ∧ rec !! "_sdc_source_file" = Some (PStr "a.csv")
  ∧ rec !! "_sdc_source_lineno" = Some (PInt 2)
  ∧ rec !! "v" = Some (PInt 1).
Proof.
  intros s3 decoded rec.
  assert (transform_calls
            (sync_table_file Scenario.lib_colliding s3 Scenario.config "a.csv"
               Scenario.orders Scenario.stream (Scenario.utc 1580515200)).1 !! 0
          = Some rec) as Hcall by (vm_compute; reflexivity).
  split; [exact Hcall|].
  destruct (reserved_fields_overwrite Scenario.lib_colliding s3 Scenario.config
              "a.csv" Scenario.orders Scenario.stream (Scenario.utc 1580515200)
              0 rec)
    as (b & h & em & it & row & Hb & _ & _ & _ & _ & _ & Hcb & Hcf & Hcl & _).
  - refine (bool_decide_unpack _ _). vm_compute. exact I.
  - exact Hcall.
  - assert (b = "my-bucket") as -> by (vm_compute in Hb; congruence).
    split; [exact Hcb|]. split; [exact Hcf|]. split; [exact Hcl|].
    vm_compute; reflexivity.
Defined.

(** ** Resolution of the decoding module *)

Section decoder.
Context {Schema Metadata : Type}.
Variable lib : Libraries Schema Metadata.
Variable s3 : S3.
Implicit Types (config : gmap string string) (tr : list event).
Implicit Types (stream : catalog_entry Schema Metadata) (f : s3_file).

(** The row loop returns when every row is coerced and the iterator ends. *)
Lemma sync_rows_all_OK b p tn stream lm rows n :
  (∀ i row, rows !! i = Some row →
     ∃ w, transform lib (custom_columns s3 b p (n + i) ∪ row)
            (schema stream) (metadata stream) = OK w) →
  (sync_rows lib s3 b p tn stream lm rows None n).2 = OK (n + length rows).
Proof.
  revert n. induction rows as [|row rest IH]; intros n Hall.
  - simpl. by rewrite Nat.add_0_r.
  - rewrite sync_rows_cons. destruct (Hall 0 row eq_refl) as [w Hw].
    rewrite Nat.add_0_r in Hw. rewrite Hw. cbn [snd length].
    rewrite IH; [f_equal; lia|].
    intros i r Hr. rewrite Nat.add_succ_l, <- Nat.add_succ_r. by apply Hall.
Qed.

(** A file whose bucket is configured and whose object opens is the
    prefix up to the resolution followed by [decode_and_sync] with the
    resolved module. *)
Lemma sync_table_file_resolved config p ts stream lm b h tre em :
  config !! "bucket" = Some b →
  get_file_handle s3 config p = OK h →
  resolve_encoding_module lib config = (tre, OK em) →
  let rest := decode_and_sync lib s3 em b p ts stream lm h in
  sync_table_file lib s3 config p ts stream lm
  = ([syncing_file p; GetFileHandle p; FieldSizeLimit] ++ tre ++ rest.1, rest.2).
Proof.
  intros Hb Hh Hres. cbn zeta.
  rewrite sync_table_file_eq, Hb, Hh, Hres. unfold decode_and_sync, lift.
  destruct (get_row_iterator em (_raw_stream h) ts) as [it|e]; cbn [bind app].
  - by destruct (sync_rows _ _ _ _ _ _ _ _ _ _).
  - simpl. by rewrite app_nil_r.
Qed.

Lemma decode_and_sync_quiet em b p ts stream lm h :
  let tr := (decode_and_sync lib s3 em b p ts stream lm h).1 in
  imports tr = [] ∧ warnings tr = [] ∧ files_opened tr = [].
Proof.
  unfold decode_and_sync, lift.
  destruct (get_row_iterator em (_raw_stream h) ts) as [it|e]; cbn [bind]; [|done].
  destruct (sync_rows_quiet lib s3 b p (table_name ts) stream lm
              (rows it) (iter_fault it) 0) as (Ho & Hi & _ & Hw).
  destruct (sync_rows _ _ _ _ _ _ _ _ _ _). simpl in *. by rewrite Ho, Hi, Hw.
Qed.

(** C7.  When the configuration names an [encoding_module] that cannot
    be located, resolving the decoder looks the module up, logs one
    warning and yields the default decoder [singer_encodings.csv]; the
    file sync goes on as with the default decoder, its result being that
    of decoding and streaming the file with it, so it returns the number
    of rows when the default decoder's rows all stream.  The failed lookup
    is never what the file sync raises. *)
Theorem unknown_encoding_module_falls_back config p ts stream lm name b h :
  config !! "encoding_module" = Some name →
  import_module lib name = NotFound →
  config !! "bucket" = Some b →
  get_file_handle s3 config p = OK h →
  let run := sync_table_file lib s3 config p ts stream lm in
  let default_run :=
    decode_and_sync lib s3 (singer_encodings_csv lib) b p ts stream lm h in
  resolve_encoding_module lib config
  = ([ImportModule name; failed_to_load name], OK (singer_encodings_csv lib))
  ∧ run = ([syncing_file p; GetFileHandle p; FieldSizeLimit;
            ImportModule name; failed_to_load name] ++ default_run.1,
           default_run.2)
  ∧ warnings run.1
    = ["Failed to load encoding module [" +:+ name
       +:+ "]. Defaulting to [singer_encodings.csv]"]
  ∧ (∀ it,
       get_row_iterator (singer_encodings_csv lib) (_raw_stream h) ts = OK it →
       iter_fault it = None →
       (∀ i row, rows it !! i = Some row →
          ∃ w, transform lib (custom_columns s3 b p i ∪ row)
                 (schema stream) (metadata stream) = OK w) →
       run.2 = OK (length (rows it))).
Proof.
  intros Hname Himp Hb Hh run default_run.
  assert (resolve_encoding_module lib config
          = ([ImportModule name; failed_to_load name],
             OK (singer_encodings_csv lib))) as Hres.
  { by rewrite resolve_encoding_module_eq, Hname, Himp. }
  assert (run = ([syncing_file p; GetFileHandle p; FieldSizeLimit;
                  ImportModule name; failed_to_load name] ++ default_run.1,
                 default_run.2)) as Hrun.
  { subst run. by rewrite (sync_table_file_resolved _ _ _ _ _ _ _ _ _ Hb Hh Hres). }
  split; [done|]. split; [done|]. rewrite Hrun. cbn [fst snd]. split.
  - rewrite warnings_app.
    destruct (decode_and_sync_quiet (singer_encodings_csv lib) b p ts stream lm h)
      as (_ & Hw & _).
    fold default_run in Hw. by rewrite Hw.
  - intros it Hit Hfault Hall. subst default_run. unfold decode_and_sync, lift.
    rewrite Hit. cbn [bind]. destruct it as [rs fl]. simpl in *. subst fl.
    pose proof (sync_rows_all_OK b p (table_name ts) stream lm rs 0 Hall) as HOK.
    by destruct (sync_rows _ _ _ _ _ _ _ _ _ _).
Qed.

(** A file that returns looked the named module up once, after opening
    the object and before anything else. *)
Lemma file_run_imports config ts stream f name k :
  config !! "encoding_module" = Some name →
  (file_run lib s3 config ts stream f).2 = OK k →
  ∃ post,
    (file_run lib s3 config ts stream f).1
    = [syncing_file (key f); GetFileHandle (key f); FieldSizeLimit;
       ImportModule name] ++ post
    ∧ imports post = [].
Proof.
  intros Hname. unfold file_run.
  destruct (config !! "bucket") as [b|] eqn:Hb;
    [|by rewrite sync_table_file_eq, Hb].
  destruct (get_file_handle s3 config (key f)) as [h|e] eqn:Hh;
    [|by rewrite sync_table_file_eq, Hb, Hh].
  pose proof (resolve_encoding_module_eq lib config) as Hres.
  rewrite Hname in Hres.
  destruct (decode_and_sync_quiet
              (match import_module lib name with
               | Imported m => m
               | _ => singer_encodings_csv lib
               end) b (key f) ts stream (last_modified f) h) as (Hi & _).
  destruct (import_module lib name) as [m| |e].
  - rewrite (sync_table_file_resolved _ _ _ _ _ _ _ _ _ Hb Hh Hres).
    intros _. eexists. split; [reflexivity|]. exact Hi.
  - rewrite (sync_table_file_resolved _ _ _ _ _ _ _ _ _ Hb Hh Hres).
    intros _. eexists. split; [reflexivity|]. exact Hi.
  - by rewrite sync_table_file_eq, Hb, Hh, Hres.
Qed.

Lemma committed_trace_imports config ts stream fs st name :
  config !! "encoding_module" = Some name →
  Forall (λ f, ∃ n, (file_run lib s3 config ts stream f).2 = OK n) fs →
  imports (committed_trace lib s3 config ts stream fs st)
  = replicate (length fs) name.
Proof.
  intros Hname Hall. revert st.
  induction Hall as [|f fs [n Hn] _ IH]; intros st; cbn [committed_trace]; [done|].
  destruct (file_run_imports config ts stream f name n Hname Hn) as (post & -> & Hp).
  rewrite !imports_app, Hp. simpl. by rewrite IH.
Qed.

(** C9, as the code has it.  The decoding module named in the
    configuration is looked up once in every file: a file that returns
    looked it up after opening its object and before reading any row,
    and not again; so a table sync that returns looked it up as many
    times as there are files selected. *)
Theorem module_resolved_once_per_file config state ts stream fs name n :
  config !! "encoding_module" = Some name →
  (select_files lib s3 config state ts).2 = OK fs →
  (sync_stream lib s3 config state ts stream).2 = OK n →
  imports (sync_stream lib s3 config state ts stream).1.1
  = replicate (length fs) name
  ∧ Forall (λ f, ∃ post,
       (file_run lib s3 config ts stream f).1
       = [syncing_file (key f); GetFileHandle (key f); FieldSizeLimit;
          ImportModule name] ++ post
       ∧ imports post = []) fs.
Proof.
  intros Hname Hsel. rewrite sync_stream_eq.
  pose proof (select_files_quiet lib s3 config state ts) as (_ & _ & _ & Hq & _).
  destruct (select_files lib s3 config state ts) as [tr0 r0].
  simpl in Hsel, Hq. subst r0. cbn zeta.
  destruct (sync_files _ _ _ _ _ _ _ _) as [[tr1 st1] r1] eqn:Hrun.
  apply sync_files_inv in Hrun as (done & rest & Hfiles & Hdone & _ & Hr).
  cbn [fst snd]. intros ->. destruct Hr as [-> ->].
  rewrite app_nil_r in Hfiles. subst done. split.
  - rewrite !imports_app, Hq, (committed_trace_imports _ _ _ _ _ _ Hname Hdone).
    simpl. rewrite app_nil_r.
    by rewrite (Permutation_length (sorted_perm last_modified fs)).
  - rewrite <- (sorted_perm last_modified fs).
    eapply Forall_impl; [exact Hdone|].
    intros f [k Hk]. by apply (file_run_imports config ts stream f name k).
Qed.

End decoder.

(** The configuration names a module that does not exist: the file still
    syncs its one row with the default decoder, with one warning. *)
Lemma unknown_encoding_module_falls_back_witness :
  let s3 := Scenario.bucket [Scenario.file_A] Scenario.one_row in
  let run := sync_table_file Scenario.lib s3 Scenario.config_unknown_module
               "a.csv" Scenario.orders Scenario.stream (Scenario.utc 1580515200) in
  resolve_encoding_module Scenario.lib Scenario.config_unknown_module
  = ([ImportModule "no.such.module"; failed_to_load "no.such.module"],
     OK Scenario.csv)
  ∧ run.2 = OK 1
  ∧ warnings run.1
    = ["Failed to load encoding module [no.such.module]. Defaulting to [singer_encodings.csv]"].
Proof.
  intros s3 run.
  destruct (unknown_encoding_module_falls_back Scenario.lib s3
              Scenario.config_unknown_module "a.csv" Scenario.orders
              Scenario.stream (Scenario.utc 1580515200) "no.such.module"
              "my-bucket" {| _raw_stream := Scenario.one_row "a.csv" |})
    as (Hres & _ & Hwarn & HOK).
  - vm_compute; reflexivity.
  - reflexivity.
  - reflexivity.
  - reflexivity.
  - split; [exact Hres|]. split; [|exact Hwarn].
    apply (HOK (Scenario.decode (Scenario.one_row "a.csv"))).
    + reflexivity.
    + reflexivity.
    + intros i row Hrow. eexists. reflexivity.
Defined.

(** Two files and a named module: the module is looked up twice. *)
Lemma module_resolved_once_per_file_witness :
  let s3 := Scenario.bucket [Scenario.file_B; Scenario.file_A] Scenario.one_row in
  imports (sync_stream Scenario.lib s3 Scenario.config_unknown_module
             Scenario.empty_state Scenario.orders Scenario.stream).1.1
  = ["no.such.module"; "no.such.module"].
Proof.
  intros s3.
  apply (module_resolved_once_per_file Scenario.lib s3
           Scenario.config_unknown_module Scenario.empty_state Scenario.orders
           Scenario.stream [Scenario.file_B; Scenario.file_A] "no.such.module" 2).
  - vm_compute; reflexivity.
  - vm_compute; reflexivity.
  - vm_compute; reflexivity.
Defined.

(** C9 as stated fails: in a table sync over two files the named module
    is looked up twice, not once, and the first lookup comes after the
    first file was opened. *)
Lemma module_resolved_once_per_table_sync_counterexample :
  let s3 := Scenario.bucket [Scenario.file_B; Scenario.file_A] Scenario.one_row in
  let run := sync_stream Scenario.lib s3 Scenario.config_unknown_module
               Scenario.empty_state Scenario.orders Scenario.stream in
  run.2 = OK 2
  ∧ length (imports run.1.1) ≠ 1
  ∧ imports run.1.1 = ["no.such.module"; "no.such.module"]
  ∧ files_opened (take 6 run.1.1) = ["a.csv"]
  ∧ imports (take 6 run.1.1) = [].
Proof.
  intros s3 run. split; [vm_compute; reflexivity|].
  split; [vm_compute; discriminate|]. repeat split; vm_compute; reflexivity.
Qed.

(** ** The serialized message *)

Section serialization.
Context {Schema Metadata : Type}.
Variable lib : Libraries Schema Metadata.
Variable s3 : S3.
Implicit Types (config : gmap string string) (tr : list event).
Implicit Types (stream : catalog_entry Schema Metadata) (f : s3_file).

Lemma message_of_asdict tn lm w :
  let d := RecordMessageWithSequence.asdict (message_of tn lm w) in
  d !! "type" = Some (singer.MStr "RECORD")
  ∧ d !! "stream" = Some (singer.MStr tn)
  ∧ d !! "record" = Some (singer.MRecord w)
  ∧ d !! "sequence" = Some (singer.MInt (int_timestamp lm))
  ∧ dom d = ({["type"; "stream"; "record"; "sequence"]} : gset string).
Proof.
  cbn zeta. unfold RecordMessageWithSequence.asdict, singer.asdict, message_of.
  simpl. repeat split; by simplify_map_eq.
Qed.

(** C8, as the code has it.  Every message written while syncing a file
    serializes to a dictionary with exactly the four entries [type],
    [stream], [record] and [sequence]: [type] is ["RECORD"], [stream] the
    table name, [record] the record as the transformer returned it, and
    [sequence] the integer sequence, an entry of the message next to
    [record] and not a field inside it. *)
Theorem serialized_message_shape config p ts stream lm :
  Forall (λ m,
     let d := RecordMessageWithSequence.asdict m in
     ∃ rec w,
       transform lib rec (schema stream) (metadata stream) = OK w
       ∧ d !! "type" = Some (singer.MStr "RECORD")
       ∧ d !! "stream" = Some (singer.MStr (table_name ts))
       ∧ d !! "record" = Some (singer.MRecord w)
       ∧ d !! "sequence" = Some (singer.MInt (int_timestamp lm))
       ∧ dom d = ({["type"; "stream"; "record"; "sequence"]} : gset string))
    (messages (sync_table_file lib s3 config p ts stream lm).1).
Proof.
  destruct (sync_table_file_rows lib s3 config p ts stream lm)
    as [(-> & _) | (b & h & em & it & _ & _ & _ & _ & -> & _)]; [constructor|].
  apply Forall_lookup. intros i m Hm.
  apply sync_rows_messages in Hm as (row & w & _ & Hw & ->).
  exists (custom_columns s3 b p (0 + i) ∪ row), w.
  split; [done|]. apply message_of_asdict.
Qed.

End serialization.

(** C8 as stated fails: the message written for the row of file A has its
    sequence as an entry of the message, and its record, the decoded row
    with the three reserved columns, has no [sequence] field. *)
Lemma sequence_nested_in_record_counterexample :
  let s3 := Scenario.bucket [Scenario.file_A] Scenario.one_row in
  let run := sync_stream Scenario.lib s3 Scenario.config Scenario.empty_state
               Scenario.orders Scenario.stream in
  ∃ m, messages run.1.1 = [m]
    ∧ RecordMessageWithSequence.asdict m !! "sequence"
      = Some (singer.MInt 1580515200)
    ∧ ¬ ∃ r z, RecordMessageWithSequence.asdict m !! "record"
                 = Some (singer.MRecord r)
               ∧ r !! "sequence" = Some (PInt z).
Proof.
  intros s3 run.
  exists (message_of "orders" (Scenario.utc 1580515200)
            (custom_columns s3 "my-bucket" "a.csv" 0 ∪ {["v" := PInt 1]})).
  split; [vm_compute; reflexivity|]. split; [vm_compute; reflexivity|].
  intros (r & z & Hr & Hz).
  destruct (message_of_asdict "orders" (Scenario.utc 1580515200)
              (custom_columns s3 "my-bucket" "a.csv" 0 ∪ {["v" := PInt 1]}))
    as (_ & _ & Hrec & _).
  rewrite Hrec in Hr. injection Hr as <-. vm_compute in Hz. discriminate.
Qed.

(** ** The frame of the table sync *)

Lemma foldl_commit_frame ts st fs :
  (∀ t k, (t, k) ≠ (table_name ts, "modified_since") →
     singer.get_bookmark (foldl (commit ts) st fs) t k = singer.get_bookmark st t k)
  ∧ singer.other_keys (foldl (commit ts) st fs) = singer.other_keys st.
Proof.
  revert st. induction fs as [|f fs IH]; intros st; [done|].
  cbn [foldl]. destruct (IH (commit ts st f)) as [Hb Ho]. split.
  - intros t k Hne. rewrite Hb by done. unfold commit.
    apply get_bookmark_write_ne. congruence.
  - by rewrite Ho.
Qed.

Section frame.
Context {Schema Metadata : Type}.
Variable lib : Libraries Schema Metadata.
Variable s3 : S3.
Implicit Types (config : gmap string string) (tr : list event).
Implicit Types (stream : catalog_entry Schema Metadata) (f : s3_file).

(** Whatever the table sync does, the states it writes and the state it
    leaves are the commits of files that completed. *)
Lemma sync_stream_state config state ts stream :
  let run := sync_stream lib s3 config state ts stream in
  ∃ done,
    Forall (λ f, ∃ n, (file_run lib s3 config ts stream f).2 = OK n) done
    ∧ state_writes run.1.1 = commits ts state done
    ∧ run.1.2 = foldl (commit ts) state done.
Proof.
  cbn zeta.
  destruct ((select_files lib s3 config state ts).2) as [fs|e] eqn:Hsel.
  - destruct (sync_stream_commits lib s3 config state ts stream fs Hsel)
      as (done & rest & _ & Hdone & Hw & Hst & _).
    by exists done.
  - exists []. rewrite sync_stream_eq.
    pose proof (select_files_quiet lib s3 config state ts) as (_ & _ & Hq & _).
    destruct (select_files lib s3 config state ts) as [tr0 r0].
    simpl in Hsel, Hq. subst r0. by repeat split.
Qed.

(** C10.  When the selector returns no file, the table sync writes no
    record message and no state, leaves the state object as it was and
    returns 0.  In every run, the state object changes only by the
    commits of files that completed: the states written are these
    commits, one after each file, and the state left differs from the
    incoming one at most in the [modified_since] bookmark of the table
    being synced. *)
Theorem empty_file_set_leaves_state_untouched config state ts stream :
  let run := sync_stream lib s3 config state ts stream in
  ((select_files lib s3 config state ts).2 = OK [] →
     messages run.1.1 = [] ∧ state_writes run.1.1 = []
     ∧ run.1.2 = state ∧ run.2 = OK 0)
  ∧ (∀ t k, (t, k) ≠ (table_name ts, "modified_since") →
       singer.get_bookmark run.1.2 t k = singer.get_bookmark state t k)
  ∧ singer.other_keys run.1.2 = singer.other_keys state
  ∧ (∃ done,
       Forall (λ f, ∃ n, (file_run lib s3 config ts stream f).2 = OK n) done
       ∧ state_writes run.1.1 = commits ts state done
       ∧ run.1.2 = foldl (commit ts) state done)
  ∧ (state_writes run.1.1 = [] → run.1.2 = state).
Proof.
  intros run.
  destruct (sync_stream_state config state ts stream) as (done & Hdone & Hw & Hst).
  fold run in Hw, Hst.
  destruct (foldl_commit_frame ts state done) as [Hb Ho].
  split; [|split; [|split; [|split]]].
  - intros Hsel. subst run. rewrite sync_stream_eq.
    pose proof (select_files_quiet lib s3 config state ts) as (_ & Hm & Hq & _).
    destruct (select_files lib s3 config state ts) as [tr0 r0].
    simpl in Hsel, Hm, Hq. subst r0. simpl.
    autorewrite with obs. by rewrite Hm, Hq.
  - intros t k Hne. rewrite Hst. by apply Hb.
  - by rewrite Hst.
  - by exists done.
  - intros Hnone. rewrite Hst. rewrite Hnone in Hw.
    destruct done; [done|discriminate].
Qed.

End frame.

(** A second run over A and B right after they were synced: the selector
    finds nothing newer than the watermark, and the state is untouched. *)
Lemma empty_file_set_leaves_state_untouched_witness :
  let s3 := Scenario.bucket [Scenario.file_B; Scenario.file_A] Scenario.one_row in
  let run := sync_stream Scenario.lib s3 Scenario.config Scenario.synced_state
               Scenario.orders Scenario.stream in
  (select_files Scenario.lib s3 Scenario.config Scenario.synced_state
     Scenario.orders).2 = OK []
  ∧ messages run.1.1 = [] ∧ state_writes run.1.1 = []
  ∧ run.1.2 = Scenario.synced_state ∧ run.2 = OK 0.
Proof.
  intros s3 run.
  assert ((select_files Scenario.lib s3 Scenario.config Scenario.synced_state
             Scenario.orders).2 = OK []) as Hsel by (vm_compute; reflexivity).
  split; [exact Hsel|].
  destruct (empty_file_set_leaves_state_untouched Scenario.lib s3 Scenario.config
              Scenario.synced_state Scenario.orders Scenario.stream)
    as (Hempty & _).
  exact (Hempty Hsel).
Defined.

(** * Further properties of the sync *)

(** ** The returned count *)

Section count.
Context {Schema Metadata : Type}.
Variable lib : Libraries Schema Metadata.
Variable s3 : S3.
Implicit Types (config : gmap string string) (tr : list event).
Implicit Types (stream : catalog_entry Schema Metadata) (f : s3_file).

Lemma sync_rows_calls_OK b p tn stream lm rows fault n k :
  (sync_rows lib s3 b p tn stream lm rows fault n).2 = OK k →
  length (transform_calls (sync_rows lib s3 b p tn stream lm rows fault n).1)
  = length rows.
Proof.
  revert n. induction rows as [|row rest IH]; intros n.
  - rewrite sync_rows_nil. by destruct fault.
  - rewrite sync_rows_cons. destruct (transform lib _ _ _); simpl; [|done].
    intros H. by rewrite (IH _ H).
Qed.

(** A file that returns [k] wrote [k] messages, one for each row of its
    iterator, and called the transformer [k] times. *)
Lemma file_count config p ts stream lm k :
  (sync_table_file lib s3 config p ts stream lm).2 = OK k →
  length (messages (sync_table_file lib s3 config p ts stream lm).1) = k
  ∧ length (transform_calls (sync_table_file lib s3 config p ts stream lm).1) = k.
Proof.
  destruct (sync_table_file_rows lib s3 config p ts stream lm)
    as [(_ & _ & e & ->) | (b & h & em & it & _ & _ & _ & _ & -> & -> & ->)];
    [done|].
  intros Hk. rewrite (sync_rows_calls_OK _ _ _ _ _ _ _ _ _ Hk).
  apply sync_rows_OK in Hk as (-> & _ & ->). done.
Qed.

Lemma sync_files_count config ts stream files st acc tr st' n :
  sync_files lib s3 config ts stream files st acc = (tr, st', OK n) →
  n = acc + length (messages tr).
Proof.
  revert st acc tr st' n.
  induction files as [|f files IH]; intros st acc tr st' n; cbn [sync_files].
  - intros [= <- <- <-]. simpl. lia.
  - pose proof (file_count config (key f) ts stream (last_modified f)) as Hfile.
    destruct (sync_table_file _ _ _ _ _ _ _) as [trf [k|e]]; [|done].
    destruct (sync_files _ _ _ _ _ _ _ _) as [[tr1 st1] r1] eqn:Hrest.
    intros [= <- <- ->]. apply IH in Hrest as ->.
    destruct (Hfile k eq_refl) as [Hm _]. simpl in Hm.
    rewrite messages_app, length_app. simpl. lia.
Qed.

(** X1.  The number a table sync returns is the number of record messages
    it wrote, and it is the number the closing log line reports; the
    number a file sync returns is the number of messages and of
    transformer calls of that file. *)
Theorem returned_count_is_records_written config state ts stream n :
  (sync_stream lib s3 config state ts stream).2 = OK n →
  length (messages (sync_stream lib s3 config state ts stream).1.1) = n
  ∧ last (sync_stream lib s3 config state ts stream).1.1
    = Some (wrote n (table_name ts))
  ∧ ∀ p lm k,
      (sync_table_file lib s3 config p ts stream lm).2 = OK k →
      length (messages (sync_table_file lib s3 config p ts stream lm).1) = k
      ∧ length (transform_calls (sync_table_file lib s3 config p ts stream lm).1)
        = k.
Proof.
  rewrite sync_stream_eq.
  pose proof (select_files_quiet lib s3 config state ts) as (_ & Hm & _).
  destruct (select_files lib s3 config state ts) as [tr0 [fs|e]]; [|done].
  simpl in Hm. cbn zeta.
  destruct (sync_files _ _ _ _ _ _ _ _) as [[tr1 st1] r1] eqn:Hrun.
  cbn [fst snd]. intros ->. apply sync_files_count in Hrun. simpl in Hrun.
  split; [|split].
  - rewrite !messages_app, Hm. simpl. rewrite app_nil_r. done.
  - rewrite app_assoc. apply last_snoc.
  - intros p lm k. apply file_count.
Qed.

End count.

(** Files A and B of three rows each: the sync returns 6 and wrote 6
    messages. *)
Lemma returned_count_is_records_written_witness :
  let s3 := Scenario.bucket [Scenario.file_B; Scenario.file_A] Scenario.three_rows in
  let run := sync_stream Scenario.lib s3 Scenario.config Scenario.empty_state
               Scenario.orders Scenario.stream in
  run.2 = OK 6 ∧ length (messages run.1.1) = 6
  ∧ last run.1.1 = Some (wrote 6 "orders").
Proof.
  intros s3 run.
  assert (run.2 = OK 6) as Hrun by (vm_compute; reflexivity).
  split; [exact Hrun|].
  destruct (returned_count_is_records_written Scenario.lib s3 Scenario.config
              Scenario.empty_state Scenario.orders Scenario.stream 6 Hrun)
    as (Hlen & Hlast & _).
  split; [exact Hlen | exact Hlast].
Defined.

(** ** Faults before the first row *)

Section early_faults.
Context {Schema Metadata : Type}.
Variable lib : Libraries Schema Metadata.
Variable s3 : S3.
Implicit Types (config : gmap string string) (tr : list event).
Implicit Types (stream : catalog_entry Schema Metadata) (f : s3_file).

(** Reading the watermark has no effect outside the process. *)
Lemma read_modified_since_silent config state ts :
  (read_modified_since lib config state ts).1 = [].
Proof.
  unfold read_modified_since, getitem, lift, ret, raise.
  repeat case_match; simplify_eq/=; repeat (case_match; simplify_eq/=); done.
Qed.

Lemma select_files_eq config state ts :
  select_files lib s3 config state ts
  = match (read_modified_since lib config state ts).2 with
    | OK ms => (listing (table_name ts) ms,
                get_input_files_for_table s3 config ts ms)
    | Raise e => ([], Raise e)
    end.
Proof.
  unfold select_files. pose proof (read_modified_since_silent config state ts) as Hs.
  destruct (read_modified_since lib config state ts) as [tr [ms|e]];
    simpl in Hs; subst tr; [|done].
  unfold emit, lift, listing. cbn [bind app snd].
  by destruct (get_input_files_for_table s3 config ts ms).
Qed.

(** X2.  With no [start_date] in the configuration and no bookmark for
    the table (none, or an empty one), the table sync raises
    [KeyError('start_date')] before it logs, lists or opens anything, and
    leaves the state as it was. *)
Theorem missing_start_date_fails_before_io config state ts stream :
  singer.get_bookmark state (table_name ts) "modified_since" = None
  ∨ singer.get_bookmark state (table_name ts) "modified_since" = Some EmptyString →
  config !! "start_date" = None →
  sync_stream lib s3 config state ts stream
  = ([], state, Raise (KeyError "start_date")).
Proof.
  intros Hb Hs. rewrite sync_stream_eq, select_files_eq.
  unfold read_modified_since, getitem.
  destruct Hb as [-> | ->]; [|rewrite decide_True by done]; by rewrite Hs.
Qed.

(** X3.  A bookmark that is not empty is the watermark: the start date
    is not read, so it may be missing, and the selector is asked for
    the files modified since the parsed bookmark. *)
Theorem bookmark_takes_precedence config state ts b ms :
  singer.get_bookmark state (table_name ts) "modified_since" = Some b →
  b ≠ EmptyString →
  strptime_with_tz lib b = OK ms →
  select_files lib s3 config state ts
  = (listing (table_name ts) ms, get_input_files_for_table s3 config ts ms).
Proof.
  intros Hb Hne Hms. rewrite select_files_eq.
  by rewrite (read_modified_since_bookmark lib config state ts b Hb Hne), Hms.
Qed.

(** X4.  When the selector raises, the table sync raises the same fault
    right after the two log lines and the listing call: no object is
    opened, nothing is written, and the state is as it was. *)
Theorem listing_fault_aborts_table_sync config state ts stream ms e :
  (read_modified_since lib config state ts).2 = OK ms →
  get_input_files_for_table s3 config ts ms = Raise e →
  sync_stream lib s3 config state ts stream
  = (listing (table_name ts) ms, state, Raise e).
Proof.
  intros Hms He. by rewrite sync_stream_eq, select_files_eq, Hms, He.
Qed.

(** X5.  With no [bucket] in the configuration and at least one file
    selected, the table sync raises [KeyError('bucket')] in the first
    file, before that file is opened: no object is opened, no record and
    no state is written, and the state is as it was. *)
Theorem missing_bucket_fails_first_file config state ts stream fs :
  config !! "bucket" = None →
  (select_files lib s3 config state ts).2 = OK fs →
  fs ≠ [] →
  let run := sync_stream lib s3 config state ts stream in
  run.2 = Raise (KeyError "bucket")
  ∧ run.1.2 = state
  ∧ files_opened run.1.1 = []
  ∧ messages run.1.1 = []
  ∧ state_writes run.1.1 = [].
Proof.
  intros Hb Hsel Hne run. subst run. rewrite sync_stream_eq.
  pose proof (select_files_quiet lib s3 config state ts) as (Ho & Hm & Hw & _).
  destruct (select_files lib s3 config state ts) as [tr0 r0].
  simpl in Hsel, Ho, Hm, Hw. subst r0. cbn zeta.
  destruct (sorted dt_lt last_modified fs) as [|f rest] eqn:Hsorted.
  { pose proof (sorted_perm last_modified fs) as Hp. rewrite Hsorted in Hp.
    apply Permutation_nil_l in Hp. by subst fs. }
  assert (file_run lib s3 config ts stream f
          = ([syncing_file (key f)], Raise (KeyError "bucket"))) as Hf.
  { unfold file_run. by rewrite sync_table_file_eq, Hb. }
  pose proof (sync_files_app_fault lib s3 config ts stream [] f rest
                (KeyError "bucket") state 0 (List.Forall_nil _)) as Hrun.
  rewrite Hf in Hrun. specialize (Hrun eq_refl).
  cbn [fst snd committed_trace foldl app] in Hrun. rewrite Hrun.
  cbn [fst snd]. autorewrite with obs. rewrite Ho, Hm, Hw. done.
Qed.

End early_faults.

(** No bookmark and a configuration without start date. *)
Lemma missing_start_date_fails_before_io_witness :
  sync_stream Scenario.lib (Scenario.bucket [Scenario.file_A] Scenario.one_row)
    Scenario.config_no_start_date Scenario.empty_state Scenario.orders
    Scenario.stream
  = ([], Scenario.empty_state, Raise (KeyError "start_date")).
Proof.
  apply missing_start_date_fails_before_io.
  - left. reflexivity.
  - vm_compute; reflexivity.
Defined.

(** The state left by a sync of A and B, and a configuration without
    start date: the watermark is that of B. *)
Lemma bookmark_takes_precedence_witness :
  let s3 := Scenario.bucket [Scenario.file_B; Scenario.file_A] Scenario.one_row in
  select_files Scenario.lib s3 Scenario.config_no_start_date
    Scenario.synced_state Scenario.orders
  = (listing "orders" (Scenario.utc 1583020800),
     get_input_files_for_table s3 Scenario.config_no_start_date Scenario.orders
       (Scenario.utc 1583020800)).
Proof.
  intros s3.
  apply (bookmark_takes_precedence Scenario.lib s3 Scenario.config_no_start_date
           Scenario.synced_state Scenario.orders "2020-03-01T00:00:00+00:00").
  - vm_compute; reflexivity.
  - discriminate.
  - vm_compute; reflexivity.
Defined.

(** The listing of the bucket is refused. *)
Lemma listing_fault_aborts_table_sync_witness :
  sync_stream Scenario.lib Scenario.unreachable Scenario.config
    Scenario.empty_state Scenario.orders Scenario.stream
  = (listing "orders" (Scenario.utc 1577836800), Scenario.empty_state,
     Raise (Fault "ClientError" "AccessDenied")).
Proof.
  apply (listing_fault_aborts_table_sync Scenario.lib Scenario.unreachable).
  - vm_compute; reflexivity.
  - reflexivity.
Defined.

(** File A is selected and the configuration names no bucket. *)
Lemma missing_bucket_fails_first_file_witness :
  let s3 := Scenario.bucket [Scenario.file_A] Scenario.one_row in
  let run := sync_stream Scenario.lib s3 Scenario.config_no_bucket
               Scenario.empty_state Scenario.orders Scenario.stream in
  run.2 = Raise (KeyError "bucket")
  ∧ run.1.2 = Scenario.empty_state
  ∧ files_opened run.1.1 = []
  ∧ messages run.1.1 = []
  ∧ state_writes run.1.1 = [].
Proof.
  intros s3 run.
  apply (missing_bucket_fails_first_file Scenario.lib s3 Scenario.config_no_bucket
           Scenario.empty_state Scenario.orders Scenario.stream [Scenario.file_A]).
  - vm_compute; reflexivity.
  - vm_compute; reflexivity.
  - discriminate.
Defined.

(** ** Other outcomes of the module lookup *)

Section lookup.
Context {Schema Metadata : Type}.
Variable lib : Libraries Schema Metadata.
Variable s3 : S3.
Implicit Types (config : gmap string string) (tr : list event).
Implicit Types (stream : catalog_entry Schema Metadata) (f : s3_file).


(** X7.  When the named module imports, the file is decoded and streamed
    with that module and not with the default decoder, and no warning is
    logged. *)
Theorem named_module_is_used config p ts stream lm name m b h :
  config !! "encoding_module" = Some name →
  import_module lib name = Imported m →
  config !! "bucket" = Some b →
  get_file_handle s3 config p = OK h →
  let run := sync_table_file lib s3 config p ts stream lm in
  let decoded := decode_and_sync lib s3 m b p ts stream lm h in
  run = ([syncing_file p; GetFileHandle p; FieldSizeLimit; ImportModule name]
           ++ decoded.1, decoded.2)
  ∧ warnings run.1 = [].
Proof.
  intros Hname Himp Hb Hh run decoded.
  assert (resolve_encoding_module lib config = ([ImportModule name], OK m)) as Hres.
  { by rewrite resolve_encoding_module_eq, Hname, Himp. }
  assert (run = ([syncing_file p; GetFileHandle p; FieldSizeLimit; ImportModule name]
                   ++ decoded.1, decoded.2)) as ->.
  { subst run. by rewrite (sync_table_file_resolved _ _ _ _ _ _ _ _ _ _ _ Hb Hh Hres). }
  split; [done|]. cbn [fst]. rewrite warnings_app.
  destruct (decode_and_sync_quiet lib s3 m b p ts stream lm h) as (_ & Hw & _).
  fold decoded in Hw. by rewrite Hw.
Qed.

(** Without an override a file looks no module up and logs no warning. *)
Lemma file_run_no_override config ts stream f :
  config !! "encoding_module" = None →
  imports (file_run lib s3 config ts stream f).1 = []
  ∧ warnings (file_run lib s3 config ts stream f).1 = [].
Proof.
  intros Hname. unfold file_run.
  rewrite sync_table_file_eq, resolve_encoding_module_eq, Hname.
  destruct (config !! "bucket") as [b|]; [|done].
  destruct (get_file_handle s3 config (key f)) as [h|e]; [|done].
  destruct (get_row_iterator _ _ ts) as [it|e]; [|done].
  destruct (sync_rows_quiet lib s3 b (key f) (table_name ts) stream
              (last_modified f) (rows it) (iter_fault it) 0) as (_ & Hi & _ & Hw).
  cbn [fst]. autorewrite with obs. by rewrite Hi, Hw.
Qed.

Lemma sync_files_no_override config ts stream files st acc :
  config !! "encoding_module" = None →
  imports (sync_files lib s3 config ts stream files st acc).1.1 = []
  ∧ warnings (sync_files lib s3 config ts stream files st acc).1.1 = [].
Proof.
  intros Hname. revert st acc.
  induction files as [|f files IH]; intros st acc; cbn [sync_files]; [done|].
  destruct (file_run_no_override config ts stream f Hname) as [Hi Hw].
  unfold file_run in Hi, Hw.
  destruct (sync_table_file _ _ _ _ _ _ _) as [trf [n|e]]; simpl in Hi, Hw; [|done].
  specialize (IH (singer.write_bookmark st (table_name ts) "modified_since"
                    (isoformat (last_modified f))) (acc + n)).
  destruct (sync_files _ _ _ _ _ _ _ _) as [[tr1 st1] r1]. simpl in IH.
  destruct IH as [IHi IHw]. cbn [fst]. rewrite imports_app, warnings_app, Hi, Hw.
  split; [exact IHi | exact IHw].
Qed.

(** X8.  When the configuration names no [encoding_module], a table sync
    never calls the module lookup and logs no warning, whatever its
    outcome, and every file that opens is decoded and streamed with the
    default decoder. *)
Theorem no_override_no_lookup config state ts stream :
  config !! "encoding_module" = None →
  imports (sync_stream lib s3 config state ts stream).1.1 = []
  ∧ warnings (sync_stream lib s3 config state ts stream).1.1 = []
  ∧ ∀ p lm b h,
      config !! "bucket" = Some b →
      get_file_handle s3 config p = OK h →
      let decoded :=
        decode_and_sync lib s3 (singer_encodings_csv lib) b p ts stream lm h in
      sync_table_file lib s3 config p ts stream lm
      = ([syncing_file p; GetFileHandle p; FieldSizeLimit] ++ decoded.1,
         decoded.2).
Proof.
  intros Hname. split; [|split].
  - rewrite sync_stream_eq.
    pose proof (select_files_quiet lib s3 config state ts) as (_ & _ & _ & Hq & _).
    destruct (select_files lib s3 config state ts) as [tr0 [fs|e]]; [|done].
    simpl in Hq. cbn zeta.
    destruct (sync_files_no_override config ts stream
                (sorted dt_lt last_modified fs) state 0 Hname) as [Hi _].
    destruct (sync_files _ _ _ _ _ _ _ _) as [[tr1 st1] r1]. simpl in Hi.
    cbn [fst snd]. autorewrite with obs. rewrite Hq, Hi. by destruct r1.
  - rewrite sync_stream_eq.
    pose proof (select_files_quiet lib s3 config state ts)
      as (_ & _ & _ & _ & _ & Hq).
    destruct (select_files lib s3 config state ts) as [tr0 [fs|e]]; [|done].
    simpl in Hq. cbn zeta.
    destruct (sync_files_no_override config ts stream
                (sorted dt_lt last_modified fs) state 0 Hname) as [_ Hw].
    destruct (sync_files _ _ _ _ _ _ _ _) as [[tr1 st1] r1]. simpl in Hw.
    cbn [fst snd]. autorewrite with obs. rewrite Hq, Hw. by destruct r1.
  - intros p lm b h Hb Hh decoded.
    assert (resolve_encoding_module lib config = ([], OK (singer_encodings_csv lib)))
      as Hres by (by rewrite resolve_encoding_module_eq, Hname).
    by rewrite (sync_table_file_resolved _ _ _ _ _ _ _ _ _ _ _ Hb Hh Hres).
Qed.

End lookup.


(** The module [my.decoder] imports: its rows, not those of the default
    decoder, are streamed. *)
Lemma named_module_is_used_witness :
  let s3 := Scenario.bucket [Scenario.file_A] Scenario.one_row in
  let run := sync_table_file Scenario.lib_modules s3 Scenario.config_my_decoder
               "a.csv" Scenario.orders Scenario.stream (Scenario.utc 1580515200) in
  let decoded := decode_and_sync Scenario.lib_modules s3 Scenario.colliding
                   "my-bucket" "a.csv" Scenario.orders Scenario.stream
                   (Scenario.utc 1580515200)
                   {| _raw_stream := Scenario.one_row "a.csv" |} in
  run = ([syncing_file "a.csv"; GetFileHandle "a.csv"; FieldSizeLimit;
          ImportModule "my.decoder"] ++ decoded.1, decoded.2)
  ∧ warnings run.1 = [].
Proof.
  intros s3 run decoded.
  apply (named_module_is_used Scenario.lib_modules s3 Scenario.config_my_decoder
           "a.csv" Scenario.orders Scenario.stream (Scenario.utc 1580515200)
           "my.decoder" Scenario.colliding "my-bucket"
           {| _raw_stream := Scenario.one_row "a.csv" |}).
  - vm_compute; reflexivity.
  - reflexivity.
  - reflexivity.
  - reflexivity.
Defined.

(** The scenario of A and B without override. *)
Lemma no_override_no_lookup_witness :
  let s3 := Scenario.bucket [Scenario.file_B; Scenario.file_A] Scenario.one_row in
  imports (sync_stream Scenario.lib_modules s3 Scenario.config
             Scenario.empty_state Scenario.orders Scenario.stream).1.1 = []
  ∧ warnings (sync_stream Scenario.lib_modules s3 Scenario.config
                Scenario.empty_state Scenario.orders Scenario.stream).1.1 = [].
Proof.
  intros s3.
  destruct (no_override_no_lookup Scenario.lib_modules s3 Scenario.config
              Scenario.empty_state Scenario.orders Scenario.stream)
    as (Hi & Hw & _).
  - vm_compute; reflexivity.
  - split; [exact Hi | exact Hw].
Defined.

(** ** Faults in the middle of a file *)

Section row_faults.
Context {Schema Metadata : Type}.
Variable lib : Libraries Schema Metadata.
Variable s3 : S3.
Implicit Types (config : gmap string string) (tr : list event).
Implicit Types (stream : catalog_entry Schema Metadata) (f : s3_file).

Lemma sync_rows_transform_fault b p tn stream lm rows fault n K row e :
  rows !! K = Some row →
  (∀ j r, j < K → rows !! j = Some r →
     ∃ w, transform lib (custom_columns s3 b p (n + j) ∪ r)
            (schema stream) (metadata stream) = OK w) →
  transform lib (custom_columns s3 b p (n + K) ∪ row)
    (schema stream) (metadata stream) = Raise e →
  let run := sync_rows lib s3 b p tn stream lm rows fault n in
  run.2 = Raise e
  ∧ length (messages run.1) = K
  ∧ length (transform_calls run.1) = S K.
Proof.
  revert n K. induction rows as [|r0 rest IH]; intros n K Hrow Hbefore He; [done|].
  cbn zeta. rewrite sync_rows_cons. destruct K as [|K].
  - simpl in Hrow. injection Hrow as ->. rewrite Nat.add_0_r in He.
    by rewrite He.
  - destruct (Hbefore 0 r0) as [w Hw]; [lia | done |].
    rewrite Nat.add_0_r in Hw. rewrite Hw. cbn [fst snd].
    rewrite Nat.add_succ_r in He.
    destruct (IH (S n) K Hrow) as (Hr & Hm & Hc); [|exact He|].
    { intros j r Hj Hr. rewrite Nat.add_succ_l, <- Nat.add_succ_r.
      apply Hbefore; [lia | done]. }
    split; [exact Hr|]. split; simpl; [by rewrite Hm | by rewrite Hc].
Qed.

Lemma sync_rows_iter_fault b p tn stream lm rows n e :
  (∀ i row, rows !! i = Some row →
     ∃ w, transform lib (custom_columns s3 b p (n + i) ∪ row)
            (schema stream) (metadata stream) = OK w) →
  let run := sync_rows lib s3 b p tn stream lm rows (Some e) n in
  run.2 = Raise e
  ∧ length (messages run.1) = length rows
  ∧ length (transform_calls run.1) = length rows.
Proof.
  revert n. induction rows as [|row rest IH]; intros n Hall; [done|].
  cbn zeta. rewrite sync_rows_cons. destruct (Hall 0 row eq_refl) as [w Hw].
  rewrite Nat.add_0_r in Hw. rewrite Hw. cbn [fst snd].
  destruct (IH (S n)) as (Hr & Hm & Hc).
  { intros i r Hr. rewrite Nat.add_succ_l, <- Nat.add_succ_r. by apply Hall. }
  split; [exact Hr|]. split; simpl; [by rewrite Hm | by rewrite Hc].
Qed.

(** X9.  When the transformer raises on the row of index [K] of a file,
    after coercing the rows before it, the file sync raises that fault:
    it has written exactly the [K] records of the rows before and called
    the transformer [K + 1] times, so the rows after the failing one are
    never read. *)
Theorem transform_fault_after_rows config p ts stream lm b h em it K row e :
  config !! "bucket" = Some b →
  get_file_handle s3 config p = OK h →
  (resolve_encoding_module lib config).2 = OK em →
  get_row_iterator em (_raw_stream h) ts = OK it →
  rows it !! K = Some row →
  (∀ j r, j < K → rows it !! j = Some r →
     ∃ w, transform lib (custom_columns s3 b p j ∪ r)
            (schema stream) (metadata stream) = OK w) →
  transform lib (custom_columns s3 b p K ∪ row)
    (schema stream) (metadata stream) = Raise e →
  let run := sync_table_file lib s3 config p ts stream lm in
  run.2 = Raise e
  ∧ length (messages run.1) = K
  ∧ length (transform_calls run.1) = S K.
Proof.
  intros Hb Hh Hem Hit Hrow Hbefore He run. subst run.
  destruct (sync_table_file_reaches_rows lib s3 config p ts stream lm b h em it
              Hb Hh Hem Hit) as (-> & -> & ->).
  by apply (sync_rows_transform_fault b p (table_name ts) stream lm (rows it)
              (iter_fault it) 0 K row e).
Qed.

(** X10.  When the iterator of a file raises after yielding its rows, and
    these rows are all coerced, the file sync raises the iterator's
    fault after writing one record for every row yielded. *)
Theorem iterator_fault_after_rows config p ts stream lm b h em it e :
  config !! "bucket" = Some b →
  get_file_handle s3 config p = OK h →
  (resolve_encoding_module lib config).2 = OK em →
  get_row_iterator em (_raw_stream h) ts = OK it →
  iter_fault it = Some e →
  (∀ i row, rows it !! i = Some row →
     ∃ w, transform lib (custom_columns s3 b p i ∪ row)
            (schema stream) (metadata stream) = OK w) →
  let run := sync_table_file lib s3 config p ts stream lm in
  run.2 = Raise e
  ∧ length (messages run.1) = length (rows it)
  ∧ length (transform_calls run.1) = length (rows it).
Proof.
  intros Hb Hh Hem Hit Hfault Hall run. subst run.
  destruct (sync_table_file_reaches_rows lib s3 config p ts stream lm b h em it
              Hb Hh Hem Hit) as (-> & -> & ->).
  rewrite Hfault.
  by apply (sync_rows_iter_fault b p (table_name ts) stream lm (rows it) 0 e).
Qed.

End row_faults.

(** Three rows with the values 10, 11 and 12, and a transformer that
    rejects 11: one record is written, the transformer is called twice. *)
Lemma transform_fault_after_rows_witness :
  let s3 := Scenario.bucket [Scenario.file_A] Scenario.three_rows in
  let run := sync_table_file Scenario.lib_strict s3 Scenario.config "a.csv"
               Scenario.orders Scenario.stream (Scenario.utc 1580515200) in
  run.2 = Raise (Fault "SchemaMismatch" "v")
  ∧ length (messages run.1) = 1
  ∧ length (transform_calls run.1) = 2.
Proof.
  intros s3 run.
  apply (transform_fault_after_rows Scenario.lib_strict s3 Scenario.config "a.csv"
           Scenario.orders Scenario.stream (Scenario.utc 1580515200) "my-bucket"
           {| _raw_stream := Scenario.three_rows "a.csv" |} Scenario.csv
           (Scenario.decode (Scenario.three_rows "a.csv")) 1
           {["v" := PInt 11]}).
  - vm_compute; reflexivity.
  - reflexivity.
  - reflexivity.
  - reflexivity.
  - vm_compute; reflexivity.
  - intros j r Hj Hr. destruct j as [|j]; [|lia].
    injection Hr as <-. eexists. reflexivity.
  - reflexivity.
Defined.

(** In [b.csv] two rows decode and the third byte does not. *)
Lemma iterator_fault_after_rows_witness :
  let s3 := Scenario.bucket [Scenario.file_B] Scenario.broken_B in
  let run := sync_table_file Scenario.lib s3 Scenario.config "b.csv"
               Scenario.orders Scenario.stream (Scenario.utc 1583020800) in
  run.2 = Raise (Fault "UnicodeDecodeError" "invalid start byte")
  ∧ length (messages run.1) = 2
  ∧ length (transform_calls run.1) = 2.
Proof.
  intros s3 run.
  apply (iterator_fault_after_rows Scenario.lib s3 Scenario.config "b.csv"
           Scenario.orders Scenario.stream (Scenario.utc 1583020800) "my-bucket"
           {| _raw_stream := Scenario.broken_B "b.csv" |} Scenario.csv
           (Scenario.decode (Scenario.broken_B "b.csv"))).
  - vm_compute; reflexivity.
  - reflexivity.
  - reflexivity.
  - reflexivity.
  - vm_compute; reflexivity.
  - intros i row Hrow. eexists. reflexivity.
Defined.

(** ** The order of the output *)

Lemma int_timestamp_mono a b :
  (epoch_us a ≤ epoch_us b)%Z → (int_timestamp a ≤ int_timestamp b)%Z.
Proof. intros H. unfold int_timestamp. apply Z.quot_le_mono; [lia | done]. Qed.

Lemma constant_block_sorted (c : Z) (l : list Z) :
  Forall (λ z, z = c) l → StronglySorted Z.le l.
Proof.
  induction 1 as [|z l -> Hall IH]; constructor; [done|].
  eapply Forall_impl; [exact Hall|]. intros z ->. reflexivity.
Qed.

(** Blocks of equal stamps, laid out along a list sorted by stamp, are
    sorted. *)
Lemma blocks_sorted {A} (stamp : A → Z) (block : A → list Z) (gs : list A) :
  (∀ g, Forall (λ z, z = stamp g) (block g)) →
  StronglySorted (λ a b, (stamp a ≤ stamp b)%Z) gs →
  StronglySorted Z.le (concat (block <$> gs)).
Proof.
  intros Hblock. induction 1 as [|g gs Hs IH Hall]; simpl; [constructor|].
  apply StronglySorted_app_2; [|by eapply constant_block_sorted|done].
  intros x1 x2 H1 H2.
  pose proof (Hblock g) as Hg. rewrite Forall_forall in Hg.
  rewrite (Hg x1 H1). clear H1 IH Hs.
  induction Hall as [|g' gs Hle Hall IH]; simpl in H2; [by apply elem_of_nil in H2|].
  apply elem_of_app in H2 as [H2|H2]; [|by apply IH].
  pose proof (Hblock g') as Hg'. rewrite Forall_forall in Hg'.
  by rewrite (Hg' x2 H2).
Qed.

Lemma key_sorted_stamps (gs : list s3_file) :
  StronglySorted (key_le last_modified) gs →
  StronglySorted (λ a b, (int_timestamp (last_modified a)
                          ≤ int_timestamp (last_modified b))%Z) gs.
Proof.
  induction 1 as [|g gs Hs IH Hall]; constructor; [done|].
  eapply Forall_impl; [exact Hall|]. intros g'. apply int_timestamp_mono.
Qed.

Section output_order.
Context {Schema Metadata : Type}.
Variable lib : Libraries Schema Metadata.
Variable s3 : S3.
Implicit Types (config : gmap string string) (tr : list event).
Implicit Types (stream : catalog_entry Schema Metadata) (f : s3_file).

(** The trace of a table sync that returns. *)
Lemma sync_stream_OK_trace config state ts stream fs n :
  (select_files lib s3 config state ts).2 = OK fs →
  (sync_stream lib s3 config state ts stream).2 = OK n →
  (sync_stream lib s3 config state ts stream).1.1
  = (select_files lib s3 config state ts).1
      ++ committed_trace lib s3 config ts stream
           (sorted dt_lt last_modified fs) state
      ++ [wrote n (table_name ts)]
  ∧ Forall (λ f, ∃ k, (file_run lib s3 config ts stream f).2 = OK k)
      (sorted dt_lt last_modified fs).
Proof.
  intros Hsel. rewrite sync_stream_eq.
  destruct (select_files lib s3 config state ts) as [tr0 r0].
  simpl in Hsel. subst r0. cbn zeta.
  destruct (sync_files _ _ _ _ _ _ _ _) as [[tr1 st1] r1] eqn:Hrun.
  apply sync_files_inv in Hrun as (done & rest & Hfiles & Hdone & _ & Hr).
  cbn [fst snd]. intros ->. destruct Hr as [-> ->].
  rewrite app_nil_r in Hfiles. by subst done.
Qed.

(** X11.  A table sync that returns has done, in this order: the
    selection; for each file in sorted order, the whole of that file's
    sync followed by the write of the state with its watermark; the
    closing log line.  So the records come out file by file in sorted
    order, and a file's state is written after its last record and before
    the next file is touched. *)
Theorem emission_follows_file_order config state ts stream fs n :
  (select_files lib s3 config state ts).2 = OK fs →
  (sync_stream lib s3 config state ts stream).2 = OK n →
  let order := sorted dt_lt last_modified fs in
  (sync_stream lib s3 config state ts stream).1.1
  = (select_files lib s3 config state ts).1
      ++ committed_trace lib s3 config ts stream order state
      ++ [wrote n (table_name ts)]
  ∧ messages (sync_stream lib s3 config state ts stream).1.1
    = concat ((λ f, messages (file_run lib s3 config ts stream f).1) <$> order).
Proof.
  intros Hsel Hn order.
  destruct (sync_stream_OK_trace config state ts stream fs n Hsel Hn) as [Htr _].
  split; [exact Htr|]. rewrite Htr, !messages_app.
  pose proof (select_files_quiet lib s3 config state ts) as (_ & -> & _).
  rewrite committed_trace_messages. simpl. by rewrite app_nil_r.
Qed.

(** X13.  When the selector yields the files in an order in which no
    file's [last_modified] is smaller, for Python's [<], than that of a
    file before it, a table sync that returns opened them in exactly the
    order the selector gave. *)
Theorem sorted_selection_keeps_order config state ts stream fs n :
  (select_files lib s3 config state ts).2 = OK fs →
  StronglySorted (not_after last_modified) fs →
  (sync_stream lib s3 config state ts stream).2 = OK n →
  files_opened (sync_stream lib s3 config state ts stream).1.1 = key <$> fs.
Proof.
  intros Hsel Hsorted Hn.
  destruct (sync_stream_OK_trace config state ts stream fs n Hsel Hn) as [-> Hall].
  rewrite (sorted_of_sorted last_modified fs Hsorted) in *.
  rewrite !files_opened_app, committed_trace_files_opened by done.
  pose proof (select_files_quiet lib s3 config state ts) as (-> & _).
  simpl. by rewrite app_nil_r.
Qed.

Lemma file_sequences config ts stream g :
  Forall (λ z, z = int_timestamp (last_modified g))
    (sequences (file_run lib s3 config ts stream g).1).
Proof.
  unfold sequences, file_run. apply Forall_fmap.
  eapply Forall_impl; [apply file_messages|]. by intros m [w ->].
Qed.

Lemma sequences_app tr1 tr2 :
  sequences (tr1 ++ tr2) = sequences tr1 ++ sequences tr2.
Proof. unfold sequences. by rewrite messages_app, fmap_app. Qed.

Lemma committed_trace_sequences config ts stream fs st :
  sequences (committed_trace lib s3 config ts stream fs st)
  = concat ((λ g, sequences (file_run lib s3 config ts stream g).1) <$> fs).
Proof.
  revert st. induction fs as [|g fs IH]; intros st; [done|].
  cbn [committed_trace]. rewrite sequences_app.
  change (sequences (WriteState (commit ts st g)
                       :: committed_trace lib s3 config ts stream fs
                            (commit ts st g)))
    with (sequences (committed_trace lib s3 config ts stream fs (commit ts st g))).
  by rewrite IH.
Qed.

(** X12.  When the [last_modified] of the selected files all carry one
    UTC offset (as timestamps in UTC do), the sequence numbers of the
    records a table sync writes never decrease along the output, whether
    the sync returns or stops in a fault. *)
Theorem sequences_never_decrease config state ts stream fs off :
  (select_files lib s3 config state ts).2 = OK fs →
  Forall (λ f, utcoffset (last_modified f) = off) fs →
  StronglySorted Z.le (sequences (sync_stream lib s3 config state ts stream).1.1).
Proof.
  intros Hsel Hoff. rewrite sync_stream_eq.
  pose proof (select_files_quiet lib s3 config state ts) as (_ & Hm & _).
  destruct (select_files lib s3 config state ts) as [tr0 r0].
  simpl in Hsel, Hm. subst r0. cbn zeta.
  pose proof (sorted_by_instant last_modified fs off Hoff) as Hsorted.
  destruct (sync_files _ _ _ _ _ _ _ _) as [[tr1 st1] r1] eqn:Hrun.
  apply sync_files_inv in Hrun as (done & rest & Hfiles & _ & _ & Hr).
  rewrite Hfiles in Hsorted. cbn [fst snd].
  assert (∃ gs, StronglySorted (key_le last_modified) gs
                ∧ sequences tr1
                  = concat ((λ g, sequences (file_run lib s3 config ts stream g).1)
                              <$> gs)) as (gs & Hgs & Hseq).
  { destruct r1 as [n|e].
    - destruct Hr as [-> ->]. exists done. rewrite app_nil_r in Hsorted.
      split; [done|]. apply committed_trace_sequences.
    - destruct Hr as (f & rest' & -> & _ & ->). exists (done ++ [f]). split.
      + apply (StronglySorted_app_1_l _ _ rest').
        by rewrite <- app_assoc.
      + rewrite sequences_app, committed_trace_sequences, fmap_app, concat_app.
        simpl. by rewrite app_nil_r. }
  assert (sequences (tr0 ++ tr1 ++ match r1 with
                                   | OK n => [wrote n (table_name ts)]
                                   | Raise _ => []
                                   end) = sequences tr1) as Hall.
  { rewrite !sequences_app. unfold sequences at 1. rewrite Hm.
    destruct r1; simpl; by rewrite app_nil_r. }
  unfold wrote in Hall. rewrite Hall, Hseq.
  apply (blocks_sorted (λ g, int_timestamp (last_modified g))).
  - intros g. apply file_sequences.
  - by apply key_sorted_stamps.
Qed.

End output_order.

(** The selector returns B and A: the records of A come first, each file
    followed by its state write. *)
Lemma emission_follows_file_order_witness :
  let s3 := Scenario.bucket [Scenario.file_B; Scenario.file_A] Scenario.one_row in
  let run := sync_stream Scenario.lib s3 Scenario.config Scenario.empty_state
               Scenario.orders Scenario.stream in
  messages run.1.1
  = concat ((λ f, messages (file_run Scenario.lib s3 Scenario.config
                              Scenario.orders Scenario.stream f).1)
              <$> [Scenario.file_A; Scenario.file_B]).
Proof.
  intros s3 run.
  destruct (emission_follows_file_order Scenario.lib s3 Scenario.config
              Scenario.empty_state Scenario.orders Scenario.stream
              [Scenario.file_B; Scenario.file_A] 2) as [_ Hm].
  - vm_compute; reflexivity.
  - vm_compute; reflexivity.
  - exact Hm.
Defined.

(** The selector returns A and then B, which is their order in time. *)
Lemma sorted_selection_keeps_order_witness :
  let s3 := Scenario.bucket [Scenario.file_A; Scenario.file_B] Scenario.one_row in
  files_opened (sync_stream Scenario.lib s3 Scenario.config Scenario.empty_state
                  Scenario.orders Scenario.stream).1.1
  = ["a.csv"; "b.csv"].
Proof.
  intros s3.
  apply (sorted_selection_keeps_order Scenario.lib s3 Scenario.config
           Scenario.empty_state Scenario.orders Scenario.stream
           [Scenario.file_A; Scenario.file_B] 2).
  - vm_compute; reflexivity.
  - repeat constructor.
  - vm_compute; reflexivity.
Defined.

(** The selector returns B and A with three rows each, and B fails to
    decode: the sequences written are those of A and then of B. *)
Lemma sequences_never_decrease_witness :
  let s3 := Scenario.bucket [Scenario.file_B; Scenario.file_A] Scenario.broken_B in
  sequences (sync_stream Scenario.lib s3 Scenario.config Scenario.empty_state
               Scenario.orders Scenario.stream).1.1
  = [1580515200; 1583020800; 1583020800]%Z
  ∧ StronglySorted Z.le
      (sequences (sync_stream Scenario.lib s3 Scenario.config
                    Scenario.empty_state Scenario.orders Scenario.stream).1.1).
Proof.
  intros s3. split; [vm_compute; reflexivity|].
  apply (sequences_never_decrease Scenario.lib s3 Scenario.config
           Scenario.empty_state Scenario.orders Scenario.stream
           [Scenario.file_B; Scenario.file_A] 0%Z).
  - vm_compute; reflexivity.
  - repeat constructor.
Defined.

(** ** Resuming after a fault *)

Section resume.
Context {Schema Metadata : Type}.
Variable lib : Libraries Schema Metadata.
Variable s3 : S3.
Implicit Types (config : gmap string string) (tr : list event).
Implicit Types (stream : catalog_entry Schema Metadata) (f : s3_file).

(** X14.  When the files [done] in front of [f] in the sorted order
    complete and the sync of [f] raises, the next table sync started on
    the state left behind reads as its watermark the [last_modified] of
    the last completed file, through the date parser, and does not read
    the start date; when [f] is the first file, it starts from the state
    as it was before. *)
Theorem resume_point_after_fault config state ts stream fs done f rest e :
  (select_files lib s3 config state ts).2 = OK fs →
  sorted dt_lt last_modified fs = done ++ f :: rest →
  Forall (λ g, ∃ n, (file_run lib s3 config ts stream g).2 = OK n) done →
  (file_run lib s3 config ts stream f).2 = Raise e →
  let left := (sync_stream lib s3 config state ts stream).1.2 in
  match last done with
  | Some g =>
      read_modified_since lib config left ts
      = ([], strptime_with_tz lib (isoformat (last_modified g)))
  | None => left = state
  end.
Proof.
  intros Hsel Horder Hdone Hf left. subst left. rewrite sync_stream_eq.
  destruct (select_files lib s3 config state ts) as [tr0 r0].
  simpl in Hsel. subst r0. cbn zeta.
  rewrite Horder, (sync_files_app_fault _ _ _ _ _ _ _ _ _ _ _ Hdone Hf).
  cbn [fst snd]. destruct (last done) as [g|] eqn:Hlast.
  - apply read_modified_since_bookmark; [|apply isoformat_nonempty].
    by apply foldl_commit_bookmark.
  - apply last_None in Hlast. by subst done.
Qed.

End resume.

(** A completes and B fails to decode: the next sync starts from the
    time of A. *)
Lemma resume_point_after_fault_witness :
  let s3 := Scenario.bucket [Scenario.file_B; Scenario.file_A] Scenario.broken_B in
  read_modified_since Scenario.lib Scenario.config
    (sync_stream Scenario.lib s3 Scenario.config Scenario.empty_state
       Scenario.orders Scenario.stream).1.2
    Scenario.orders
  = ([], OK (Scenario.utc 1580515200)).
Proof.
  intros s3.
  pose proof (resume_point_after_fault Scenario.lib s3 Scenario.config
                Scenario.empty_state Scenario.orders Scenario.stream
                [Scenario.file_B; Scenario.file_A]
                [Scenario.file_A] Scenario.file_B []
                (Fault "UnicodeDecodeError" "invalid start byte")) as H.
  simpl last in H. refine (eq_trans (H _ _ _ _) _).
  - vm_compute; reflexivity.
  - vm_compute; reflexivity.
  - repeat constructor. exists 1. vm_compute; reflexivity.
  - vm_compute; reflexivity.
  - vm_compute; reflexivity.
Defined.

(** * The order of the files and the watermark *)

Section file_order.
Context {Schema Metadata : Type}.
Variable lib : Libraries Schema Metadata.
Variable s3 : S3.
Implicit Types (config : gmap string string) (tr : list event).
Implicit Types (stream : catalog_entry Schema Metadata) (f : s3_file).

(** What a table sync does once the files are selected: the files [done]
    at the front of the sorted order complete, each followed by the write
    of its watermark; then the sync either returns, after the closing log
    line, or stops in the next file, whose fault it raises. *)
Lemma sync_stream_run config state ts stream fs :
  (select_files lib s3 config state ts).2 = OK fs →
  let run := sync_stream lib s3 config state ts stream in
  ∃ done rest,
    sorted dt_lt last_modified fs = done ++ rest
    ∧ Forall (λ f, ∃ n, (file_run lib s3 config ts stream f).2 = OK n) done
    ∧ run.1.1
      = (select_files lib s3 config state ts).1
          ++ committed_trace lib s3 config ts stream done state
          ++ match run.2 with
             | OK n => [wrote n (table_name ts)]
             | Raise _ =>
                 match rest with
                 | f :: _ => (file_run lib s3 config ts stream f).1
                 | [] => []
                 end
             end
    ∧ run.1.2 = foldl (commit ts) state done
    ∧ match run.2 with
      | OK _ => rest = []
      | Raise e => ∃ f rest', rest = f :: rest'
                     ∧ (file_run lib s3 config ts stream f).2 = Raise e
      end.
Proof.
  intros Hsel run. subst run. rewrite sync_stream_eq.
  destruct (select_files lib s3 config state ts) as [tr0 r0].
  simpl in Hsel. subst r0. cbn zeta.
  destruct (sync_files _ _ _ _ _ _ _ _) as [[tr1 st1] r1] eqn:Hrun.
  apply sync_files_inv in Hrun as (done & rest & Hfiles & Hdone & -> & Hr).
  exists done, rest. cbn [fst snd]. split; [done|]. split; [done|].
  destruct r1 as [n|e].
  - destruct Hr as [-> ->]. by repeat split.
  - destruct Hr as (f & rest' & -> & Hf & ->). rewrite app_nil_r.
    split; [done|]. split; [done|]. eauto.
Qed.


End file_order.



Section watermark_commits.
Context {Schema Metadata : Type}.
Variable lib : Libraries Schema Metadata.
Variable s3 : S3.
Implicit Types (config : gmap string string) (tr : list event).
Implicit Types (stream : catalog_entry Schema Metadata) (f : s3_file).

(** C2.  Once the files are selected, the table sync is: the selection;
    then, for each file [done] at the front of the sorted order, the
    whole sync of that file followed by the write of the state whose
    [modified_since] bookmark is the ISO-8601 [last_modified] of that
    file; then the closing log line, or the events of the file that
    raised.  So a state is written only after a file completed, after
    that file's last record and before the next file, and none for a
    file that raises; the states written are exactly these commits, the
    state left is the last one written (the incoming state when none
    was), and when the sync returns every file has completed and the
    bookmark is the [last_modified] of the last file.  When the selector
    returns only files modified strictly after the watermark read at
    the start, and the date parser reads their timestamps back, the
    watermark read from the state left behind is not earlier than the one
    read at the start: it never moves backwards from one sync to the
    next, also when there is no new file. *)
Theorem watermark_follows_completed_files config state ts stream fs :
  (select_files lib s3 config state ts).2 = OK fs →
  let run := sync_stream lib s3 config state ts stream in
  let order := sorted dt_lt last_modified fs in
  ∃ done rest,
    order = done ++ rest
    ∧ Forall (λ f, ∃ n, (file_run lib s3 config ts stream f).2 = OK n) done
    ∧ match run.2 with
      | OK _ => rest = []
      | Raise e => ∃ f rest', rest = f :: rest'
                     ∧ (file_run lib s3 config ts stream f).2 = Raise e
      end
    ∧ run.1.1
      = (select_files lib s3 config state ts).1
          ++ committed_trace lib s3 config ts stream done state
          ++ match run.2 with
             | OK n => [wrote n (table_name ts)]
             | Raise _ =>
                 match rest with
                 | f :: _ => (file_run lib s3 config ts stream f).1
                 | [] => []
                 end
             end
    ∧ state_writes run.1.1 = commits ts state done
    ∧ (∀ i st_i, state_writes run.1.1 !! i = Some st_i →
         ∃ f, done !! i = Some f
           ∧ singer.get_bookmark st_i (table_name ts) "modified_since"
             = Some (isoformat (last_modified f)))
    ∧ run.1.2 = default state (last (state_writes run.1.1))
    ∧ (∀ f, last done = Some f →
         singer.get_bookmark run.1.2 (table_name ts) "modified_since"
         = Some (isoformat (last_modified f)))
    ∧ (∀ ms,
         (read_modified_since lib config state ts).2 = OK ms →
         Forall (λ f, (epoch_us ms < epoch_us (last_modified f))%Z) fs →
         Forall (λ f, ∃ d,
            strptime_with_tz lib (isoformat (last_modified f)) = OK d
            ∧ epoch_us d = epoch_us (last_modified f)) fs →
         ∃ ms', (read_modified_since lib config run.1.2 ts).2 = OK ms'
                ∧ (epoch_us ms ≤ epoch_us ms')%Z).
Proof.
  intros Hsel run order.
  destruct (sync_stream_run lib s3 config state ts stream fs Hsel)
    as (done & rest & Horder & Hdone & Htr & Hstate & Hr).
  fold run in Htr, Hstate, Hr. fold order in Horder.
  exists done, rest.
  assert (state_writes run.1.1 = commits ts state done) as Hwrites.
  { rewrite Htr, !state_writes_app, committed_trace_state_writes.
    pose proof (select_files_quiet lib s3 config state ts) as (_ & _ & -> & _).
    destruct (run.2) as [n|e]; simpl; [by rewrite app_nil_r|].
    destruct rest as [|f rest']; simpl; [by rewrite app_nil_r|].
    destruct (file_run_quiet lib s3 config ts stream f) as [-> _].
    by rewrite app_nil_r. }
  split; [done|]. split; [done|]. split; [done|]. split; [done|].
  split; [done|]. rewrite Hwrites, Hstate.
  split; [intros i st_i Hi; by apply commits_lookup in Hi|].
  split; [apply foldl_commit_last|].
  split; [intros f Hf; by apply foldl_commit_bookmark|].
  intros ms Hms Hstrict Hparse.
  destruct (last done) as [f|] eqn:Hlast.
  - assert (f ∈ fs) as Hin.
    { rewrite <- (sorted_perm last_modified fs). fold order. rewrite Horder.
      apply elem_of_app. left. by apply last_Some_elem_of. }
    rewrite Forall_forall in Hstrict, Hparse.
    destruct (Hparse f Hin) as (d & Hd & Heq).
    exists d. split; [|specialize (Hstrict f Hin); lia].
    rewrite (read_modified_since_bookmark lib config _ ts
               (isoformat (last_modified f))); [done | | apply isoformat_nonempty].
    by apply foldl_commit_bookmark.
  - apply last_None in Hlast. subst done. simpl. exists ms. split; [done|lia].
Qed.

End watermark_commits.

(** The scenario of files A (2020-02-01) and B (2020-03-01) with the
    start date 2020-01-01: the final watermark is that of B. *)
Lemma watermark_follows_completed_files_witness :
  let s3 := Scenario.bucket [Scenario.file_B; Scenario.file_A] Scenario.one_row in
  let run := sync_stream Scenario.lib s3 Scenario.config Scenario.empty_state
               Scenario.orders Scenario.stream in
  run.2 = OK 2
  ∧ singer.get_bookmark run.1.2 "orders" "modified_since"
    = Some "2020-03-01T00:00:00+00:00"
  ∧ ∃ ms', (read_modified_since Scenario.lib Scenario.config run.1.2
              Scenario.orders).2 = OK ms'
           ∧ (epoch_us (Scenario.utc 1577836800) ≤ epoch_us ms')%Z.
Proof.
  intros s3 run.
  assert (run.2 = OK 2) as Hrun by (vm_compute; reflexivity).
  split; [exact Hrun|].
  destruct (watermark_follows_completed_files Scenario.lib s3 Scenario.config
              Scenario.empty_state Scenario.orders Scenario.stream
              [Scenario.file_B; Scenario.file_A])
    as (done & rest & Horder & _ & Hr & _ & _ & _ & _ & Hlast & Hmono).
  - vm_compute; reflexivity.
  - fold run in Hr, Hlast, Hmono. rewrite Hrun in Hr. subst rest.
    rewrite app_nil_r in Horder. subst done. split.
    + refine (eq_trans (Hlast Scenario.file_B _) _); vm_compute; reflexivity.
    + apply (Hmono (Scenario.utc 1577836800)).
      * vm_compute; reflexivity.
      * repeat constructor.
      * repeat constructor.
        -- exists (Scenario.utc 1583020800). split; vm_compute; reflexivity.
        -- exists (Scenario.utc 1580515200). split; vm_compute; reflexivity.
Defined.
